(** * Monte Carlo forecast of src/src/index.js

    A shallow embedding of the forecasting code of [src/src/index.js]
    ([monteCarlo] and the helpers it calls) and the properties of the
    specification checked against it.

    Conventions of the embedding.
    - JavaScript numbers are exact rationals ([Q]); integer-valued numbers
      (rounded velocities, period counters, array lengths, [iterations]) are
      [Z]. Rounding errors, infinities and NaN inside the arithmetic are not
      modelled; NaN as the result of a statistic of an empty array is [None].
      The one expression whose integer result is changed by binary64
      rounding on ordinary inputs, the percentile index
      [Math.floor(length * (level / 100))], is embedded a second time over
      IEEE binary64 ([PrimFloat]), and the reducer takes the index function
      as a parameter.
    - [Math.sqrt], [Math.log], [Math.cos] and [Math.PI] have irrational
      values; they are parameters ([MathLib]) with finite values, and every
      theorem holds for all of them.
    - [Math.random()] is ambient state: a sequence of draws and the number
      of draws consumed so far, threaded through the sampling functions.
    - [new Date()] is ambient too: the reducer reads the clock once per
      confidence level.
    - Arrays live in a store; [[...a]] allocates, [sort] updates in place.
    - The [while] loop of a trial has no bound in the source; its embedding
      takes fuel and returns [None] when the fuel runs out.
    - The requests to Jira that [monteCarlo] awaits are inputs: the search
      response and the board response. *)

From Stdlib Require Import ZArith QArith Qround Lia Lqa.
From Stdlib Require Import Uint63 Floats.PrimFloat Floats.FloatOps Floats.SpecFloat.
From stdpp Require Import base option list gmap sorting.

Local Open Scope Z_scope.

(** ** Numbers and the Math object *)

Record MathLib := {
  Math_sqrt : Q -> Q;
  Math_log : Q -> Q;
  Math_cos : Q -> Q;
  Math_PI : Q
}.

(** [Math.round(x)]: the nearest integer, halves rounded up. *)
Definition Math_round (x : Q) : Z := Qfloor (x + (1 # 2)).

(** [Math.max(0, n)] on an integer-valued [n]. *)
Definition Math_max (a b : Z) : Z := Z.max a b.

(** [a < b] on numbers. *)
Definition Qltb (a b : Q) : bool := negb (Qle_bool b a).

(** ** The ambient random source

    A computation that calls [Math.random()] reads the sequence of draws at
    the current position and advances the position. *)

Definition Rand (A : Type) : Type := nat -> A * nat.

Definition ret {A} (a : A) : Rand A := fun pos => (a, pos).

Definition bind {A B} (c : Rand A) (k : A -> Rand B) : Rand B :=
  fun pos => let (a, pos') := c pos in k a pos'.

Notation "'let*' x ':=' c 'in' k" := (bind c (fun x => k))
  (at level 10, x name, c at level 99, k at level 200).

(** ** Data *)

Record VelocityData := {
  velocities : list Z;
  mean : Q;
  stdDev : Q
}.

Record Issue := { customfield_10016 : option Q }.

(** The search response; [issues] is absent on an error response. *)
Record IssuesData := { issues : option (list Issue) }.

Record Board := { id : Z }.

(** The board response; [values] may be absent. *)
Record BoardsData := { values : option (list Board) }.

Record SimulationParams := {
  useHistoricalVelocity : bool;
  periodCount : Z;
  includeBlockers : bool
}.

(** [fetchHistoricalVelocity], as a function of the board response it awaits.
    The sprint response is fetched and not used. *)
Definition fetchHistoricalVelocity (boardsData : BoardsData) : VelocityData :=
  match values boardsData with
  | Some (_ :: _) =>
      {| velocities := [21; 18; 23; 19; 22; 20];
         mean := 205 # 10;
         stdDev := 187 # 100 |}
  | _ => {| velocities := []; mean := 0; stdDev := 0 |}
  end.

(** [calculateTotalRemainingStoryPoints]. [storyPoints || 0] is [0] for an
    absent field and for [0]. *)
Definition calculateTotalRemainingStoryPoints (issuesData : option IssuesData) : Q :=
  match issuesData with
  | Some d =>
      match issues d with
      | Some l =>
          fold_left (fun sum issue => (sum + default 0%Q (customfield_10016 issue))%Q) l 0%Q
      | None => 0%Q
      end
  | None => 0%Q
  end.

(** ** Sampler and simulation runner *)

Section Simulation.
Variable M : MathLib.
(** The values [Math.random()] returns, in call order. *)
Variable draws : nat -> Q.

Definition Math_random : Rand Q := fun pos => (draws pos, S pos).

Definition sampleVelocity (velocityData : VelocityData) : Rand Z :=
  let* u1 := Math_random in
  let* u2 := Math_random in
  let z := (Math_sqrt M (-2 * Math_log M u1) * Math_cos M (2 * Math_PI M * u2))%Q in
  ret (Math_max 0 (Math_round (mean velocityData + z * stdDev velocityData))).

Definition blockerProbability : Q := 2 # 10.

Definition applyRandomBlockers (velocity : Z) : Rand Z :=
  let* r := Math_random in
  if Qltb r blockerProbability then
    let* r' := Math_random in
    let impactPercentage := ((2 # 10) + r' * (4 # 10))%Q in
    ret (Math_round (inject_Z velocity * (1 - impactPercentage)))
  else ret velocity.

Variable velocityData : VelocityData.
Variable params : SimulationParams.

(** One pass through the body of the [while] loop: the effective velocity. *)
Definition effectiveVelocity : Rand Z :=
  let* velocity := sampleVelocity velocityData in
  if includeBlockers params then applyRandomBlockers velocity else ret velocity.

(** [while (remainingPoints > 0) { ... }]. *)
Fixpoint whileRemaining (fuel : nat) (remainingPoints : Q) (periodsRequired : Z)
    (pos : nat) : option (Z * nat) :=
  if Qltb 0 remainingPoints then
    match fuel with
    | O => None
    | S fuel' =>
        let (v, pos') := effectiveVelocity pos in
        whileRemaining fuel' (remainingPoints - inject_Z v)%Q (periodsRequired + 1) pos'
    end
  else Some (periodsRequired, pos).

(** The body of the [for] loop, [n] iterations to go. *)
Fixpoint forTrials (fuel : nat) (totalStoryPoints : Q) (n : nat)
    (simulationResults : list Z) (pos : nat) : option (list Z * nat) :=
  match n with
  | O => Some (simulationResults, pos)
  | S n' =>
      match whileRemaining fuel totalStoryPoints 0 pos with
      | None => None
      | Some (periodsRequired, pos') =>
          forTrials fuel totalStoryPoints n' (simulationResults ++ [periodsRequired]) pos'
      end
  end.

Definition runMonteCarloSimulation (fuel : nat) (issuesData : option IssuesData)
    (iterations : Z) (pos : nat) : option (list Z * nat) :=
  let totalStoryPoints := calculateTotalRemainingStoryPoints issuesData in
  forTrials fuel totalStoryPoints (Z.to_nat iterations) [] pos.

(** The remaining points and the position after [n] passes of the loop body. *)
Fixpoint afterPeriods (n : nat) (remainingPoints : Q) (pos : nat) : Q * nat :=
  match n with
  | O => (remainingPoints, pos)
  | S n' =>
      let (v, pos') := effectiveVelocity pos in
      afterPeriods n' (remainingPoints - inject_Z v)%Q pos'
  end.
End Simulation.

(** ** The array store

    An array is a reference into the store. [[...a]] allocates a new array
    with the elements of [a]; [a.sort(cmp)] sorts [a] in place and returns
    the same reference. *)

Abbreviation store := (gmap nat (list Z)).

Definition deref (h : store) (a : nat) : list Z := default [] (h !! a).

Definition alloc (xs : list Z) (h : store) : nat * store :=
  let a := fresh (dom h) in (a, <[a := xs]> h).

Definition spread (a : nat) (h : store) : nat * store := alloc (deref h a) h.

(** [a.sort((a, b) => a - b)]. *)
Definition sort_ascending (a : nat) (h : store) : nat * store :=
  (a, <[a := merge_sort Z.le (deref h a)]> h).

(** ** Exceptions and dates *)

Inductive exn := RangeError.

Inductive outcome (A : Type) :=
  | Returned (a : A)
  | Thrown (e : exn).
Arguments Returned {A} a.
Arguments Thrown {A} e.

(** A [Date] is its time value, milliseconds since the epoch. Adding days
    with [setDate] keeps the local time of day; the local offset from UTC is
    taken to be the same on both days, so the time value moves by whole
    days. A time value beyond the range of [Date] is an invalid date, on
    which [toISOString] throws a [RangeError]. *)
Definition msPerDay : Z := 86400000.
Definition maxTime : Z := 8640000000000000.
Definition validTime (t : Z) : bool := Z.abs t <=? maxTime.

(** [toISOString().split('T')[0]]: the UTC calendar day, counted from the epoch. *)
Definition isoDate (t : Z) : Z := t `div` msPerDay.

Record ConfidenceInterval (L : Type) := {
  confidence : L;
  periodsRequired : Z;
  daysRemaining : Z;
  completionDate : Z
}.
Arguments confidence {L} _.
Arguments periodsRequired {L} _.
Arguments daysRemaining {L} _.
Arguments completionDate {L} _.

(** ** Percentile reducer *)

(** [Math.floor(length * (level / 100))] in exact arithmetic. *)
Definition percentileIndex (length : nat) (level : Q) : option Z :=
  Some (Qfloor (inject_Z (Z.of_nat length) * (level / 100))).

(** [Math.floor] of a binary64 number; [None] for NaN and the infinities. *)
Definition Math_floor64 (x : float) : option Z :=
  match Prim2SF x with
  | S754_zero _ => Some 0
  | S754_finite s m e =>
      let n := if s then Z.neg m else Z.pos m in
      Some (if 0 <=? e then n * 2 ^ e else n `div` 2 ^ (- e))
  | _ => None
  end.

(** [Math.floor(length * (level / 100))] as JavaScript evaluates it, in
    IEEE binary64 with round-to-nearest-even after each operation. *)
Definition percentileIndex64 (length : nat) (level : float) : option Z :=
  Math_floor64 (PrimFloat.of_uint63 (Uint63.of_Z (Z.of_nat length)) * (level / 100))%float.

(** [array[index]]; [None] is [undefined], also for an index that is NaN. *)
Definition element (array : list Z) (index : option Z) : option Z :=
  match index with
  | Some i => if 0 <=? i then array !! Z.to_nat i else None
  | None => None
  end.

Section Reducer.
Context {L : Type}.
(** How [Math.floor(sortedResults.length * (level / 100))] evaluates. *)
Variable index_of : nat -> L -> option Z.
(** The time values the successive calls of [new Date()] return. *)
Variable now : nat -> Z.

(** The callback of [confidenceLevels.map]. *)
Definition interval (sortedResults : list Z) (today : Z) (level : L)
    : outcome (ConfidenceInterval L) :=
  let index := index_of (length sortedResults) level in
  match element sortedResults index with
  | None => Thrown RangeError
  | Some periodsRequired =>
      let daysToAdd := periodsRequired * 14 in
      let completionDate := today + daysToAdd * msPerDay in
      if validTime completionDate then
        Returned {| confidence := level;
                    periodsRequired := periodsRequired;
                    daysRemaining := daysToAdd;
                    completionDate := isoDate completionDate |}
      else Thrown RangeError
  end.

(** [confidenceLevels.map(...)], the [k]-th clock reading being the next. *)
Fixpoint mapLevels (sortedResults : list Z) (k : nat) (levels : list L)
    : outcome (list (ConfidenceInterval L)) :=
  match levels with
  | [] => Returned []
  | level :: rest =>
      match interval sortedResults (now k) level with
      | Thrown e => Thrown e
      | Returned ci =>
          match mapLevels sortedResults (S k) rest with
          | Thrown e => Thrown e
          | Returned cis => Returned (ci :: cis)
          end
      end
  end.

Definition calculateConfidenceIntervals (simulationResults : nat)
    (confidenceLevels : list L) (h : store)
    : outcome (list (ConfidenceInterval L)) * store :=
  let (copy, h1) := spread simulationResults h in
  let (sortedResults, h2) := sort_ascending copy h1 in
  (mapLevels (deref h2 sortedResults) 0 confidenceLevels, h2).
End Reducer.

(** ** Summary statistics

    A statistic is [None] when JavaScript computes NaN. The readers take the
    elements the array holds when they are called. *)

Definition calculateMean (array : list Z) : option Q :=
  match array with
  | [] => None
  | _ =>
      Some (fold_left (fun sum value => sum + inject_Z value) array 0
            / inject_Z (Z.of_nat (length array)))%Q
  end.

(** The part of [calculateMedian] after the sort. *)
Definition middleOf (sortedArray : list Z) : option Q :=
  let middle := Z.of_nat (length sortedArray) `div` 2 in
  if Z.of_nat (length sortedArray) `mod` 2 =? 0 then
    match element sortedArray (Some (middle - 1)), element sortedArray (Some middle) with
    | Some a, Some b => Some (inject_Z (a + b) / 2)%Q
    | _, _ => None
    end
  else inject_Z <$> element sortedArray (Some middle).

Definition calculateMedian (array : nat) (h : store) : option Q * store :=
  let (copy, h1) := spread array h in
  let (sortedArray, h2) := sort_ascending copy h1 in
  (middleOf (deref h2 sortedArray), h2).

Definition calculateStandardDeviation (M : MathLib) (array : list Z) : option Q :=
  match calculateMean array with
  | None => None
  | Some mean =>
      let variance :=
        (fold_left (fun sum value =>
                      let diff := inject_Z value - mean in sum + diff * diff) array 0
         / inject_Z (Z.of_nat (length array)))%Q in
      Some (Math_sqrt M variance)
  end.

(** ** The forecast *)

Module Summary.
Record t := {
  mean : option Q;
  median : option Q;
  standardDeviation : option Q
}.
End Summary.

Record ForecastResult (L : Type) := {
  iterations : Z;
  confidenceIntervals : list (ConfidenceInterval L);
  simulationSummary : Summary.t
}.
Arguments iterations {L} _.
Arguments confidenceIntervals {L} _.
Arguments simulationSummary {L} _.

Section Forecast.
Context {L : Type}.
Variable index_of : nat -> L -> option Z.
Variable M : MathLib.
Variable draws : nat -> Q.
Variable now : nat -> Z.

(** The part of [monteCarlo] after the simulation: the intervals and the
    summary of the array of trial results, and the object returned. *)
Definition monteCarlo_report (simulationResults : nat) (h : store) (iterations : Z)
    (confidenceLevels : list L) : outcome (ForecastResult L) :=
  match calculateConfidenceIntervals index_of now simulationResults
          confidenceLevels h with
  | (Thrown e, _) => Thrown e
  | (Returned confidenceIntervals, h1) =>
      let mean := calculateMean (deref h1 simulationResults) in
      let (median, h2) := calculateMedian simulationResults h1 in
      let standardDeviation :=
        calculateStandardDeviation M (deref h2 simulationResults) in
      Returned
        {| iterations := iterations;
           confidenceIntervals := confidenceIntervals;
           simulationSummary :=
             {| Summary.mean := mean;
                Summary.median := median;
                Summary.standardDeviation := standardDeviation |} |}
  end.

(** [monteCarlo], as a function of the two responses it awaits and of the
    fields of [req]. The result is [None] when a trial never returns. *)
Definition monteCarlo (fuel : nat) (issuesData : option IssuesData)
    (boardsData : BoardsData) (iterations : Z) (confidenceLevels : list L)
    (simulationParams : SimulationParams) : option (outcome (ForecastResult L)) :=
  let velocityData := fetchHistoricalVelocity boardsData in
  match runMonteCarloSimulation M draws velocityData simulationParams
          fuel issuesData iterations 0 with
  | None => None
  | Some (results, _) =>
      let (simulationResults, h) := alloc results ∅ in
      Some (monteCarlo_report simulationResults h iterations confidenceLevels)
  end.
End Forecast.

(** ** Reference definitions and example inputs *)

(** The date the specification asks of the reducer, in its words:
    [completionDate = referenceDate + periodsRequired * periodLengthDays],
    the reference date and the period length being arguments. *)
Definition spec_completionDate (referenceDate periodsRequired periodLengthDays : Z) : Z :=
  referenceDate + periodsRequired * periodLengthDays.

(** A check of the binary64 index for an array of [length] elements at the
    integer level [p] against the next level and the exact index: it lies
    within the array, does not exceed the index of level [p + 1], and is the
    exact index or one below it. *)
Definition index64_check (length p : nat) : bool :=
  let level (n : nat) := PrimFloat.of_uint63 (Uint63.of_Z (Z.of_nat n)) in
  match percentileIndex64 length (level p), percentileIndex64 length (level (S p)),
        percentileIndex length (inject_Z (Z.of_nat p)) with
  | Some i, Some j, Some e =>
      (0 <=? i) && (i <? Z.of_nat length) && (i <=? j) && ((i =? e) || (i =? e - 1))
  | _, _, _ => false
  end.

(** A rational interpretation of the Math functions, to run the definitions
    on examples: coarse approximations. The theorems hold for every
    interpretation. *)
Definition exampleMath : MathLib :=
  {| Math_sqrt := fun x => let y := ((1 + x) / 2)%Q in Qred ((y + x / y) / 2);
     Math_log := fun u => Qred ((u - 1) - (u - 1) * (u - 1) / 2);
     Math_cos := fun x => Qred (1 - x * x / 2 + x * x * x * x / 24);
     Math_PI := 355 # 113 |}.

(** Example inputs: the request the form sends, a project with one board,
    a project with none, and a backlog of one issue. *)
Definition exampleParams : SimulationParams :=
  {| useHistoricalVelocity := true; periodCount := 6; includeBlockers := true |}.

Definition oneBoard : BoardsData := {| values := Some [{| id := 1 |}] |}.

Definition noBoard : BoardsData := {| values := Some [] |}.

Definition backlog (storyPoints : Q) : option IssuesData :=
  Some {| issues := Some [{| customfield_10016 := Some storyPoints |}] |}.

(** * Properties *)

(** ** Running the definitions *)

Example total_story_points_skips_absent_fields :
  calculateTotalRemainingStoryPoints
    (Some {| issues := Some [{| customfield_10016 := Some 3%Q |};
                             {| customfield_10016 := None |};
                             {| customfield_10016 := Some (1 # 2)%Q |}] |})
  = (7 # 2)%Q.
Proof. reflexivity. Qed.

Example blocker_applies_below_the_probability :
  applyRandomBlockers (fun _ => 0)%Q 10 0%nat = (8, 2%nat)
  /\ applyRandomBlockers (fun _ => 1 # 2)%Q 10 0%nat = (10, 1%nat).
Proof. split; reflexivity. Qed.

Example three_trials_of_fifty_points :
  runMonteCarloSimulation exampleMath (fun k => if Nat.even k then 1 # 10 else 3 # 4)%Q
    (fetchHistoricalVelocity oneBoard) exampleParams 100 (backlog 50) 3 0
  = Some ([2; 2; 2], 24%nat).
Proof. vm_compute. reflexivity. Qed.

(** [sort] works in place: the array itself is changed. *)
Example sort_changes_its_array :
  deref (sort_ascending 0%nat {[ 0%nat := [3; 1; 2] ]}).2 0%nat = [1; 2; 3].
Proof. vm_compute. reflexivity. Qed.

(** Without trial results, or at level 100, the element looked up is
    [undefined], the date is invalid and [toISOString] throws. *)
Example reducer_throws_outside_the_array :
  (calculateConfidenceIntervals percentileIndex (fun _ => 0) 0%nat [50%Q]
     {[ 0%nat := [] ]}).1 = Thrown RangeError
  /\ (calculateConfidenceIntervals percentileIndex (fun _ => 0) 0%nat [100%Q]
        {[ 0%nat := [4; 5] ]}).1 = Thrown RangeError.
Proof. split; vm_compute; reflexivity. Qed.

(** In binary64, for up to 100 trial results and the integer levels 1 to 98,
    the index stays within the array, grows with the level and is the exact
    index or one below it. *)
Example percentileIndex64_checked_to_100 :
  forallb (fun length => forallb (index64_check length) (seq 1 98)) (seq 1 100) = true.
Proof. vm_compute. reflexivity. Qed.

(** ** Numbers *)

Lemma Qltb_lt (a b : Q) : Qltb a b = true <-> (a < b)%Q.
Proof.
  unfold Qltb. rewrite negb_true_iff. split.
  - intros H. apply Qnot_le_lt. intros Hle.
    apply Qle_bool_iff in Hle. congruence.
  - intros H. destruct (Qle_bool b a) eqn:E; [|reflexivity].
    apply Qle_bool_iff in E. exfalso. exact (Qlt_not_le _ _ H E).
Qed.

Lemma Qltb_ge (a b : Q) : Qltb a b = false <-> (b <= a)%Q.
Proof.
  unfold Qltb. rewrite negb_false_iff. apply Qle_bool_iff.
Qed.

Lemma Math_round_nonneg (x : Q) : (0 <= x)%Q -> 0 <= Math_round x.
Proof.
  intros Hx. unfold Math_round.
  change 0 with (Qfloor 0). apply Qfloor_resp_le.
  apply Qle_trans with x; [exact Hx|].
  rewrite <- (Qplus_0_r x) at 1. apply Qplus_le_r. discriminate.
Qed.

Lemma Math_round_below_succ (x : Q) (n : Z) :
  (x <= inject_Z n)%Q -> Math_round x <= n.
Proof.
  intros Hx. unfold Math_round.
  assert (H : (inject_Z (Qfloor (x + (1 # 2))) < inject_Z (n + 1))%Q).
  { eapply Qle_lt_trans; [apply Qfloor_le|].
    rewrite inject_Z_plus.
    apply Qle_lt_trans with (inject_Z n + (1 # 2))%Q.
    - apply Qplus_le_l. exact Hx.
    - apply Qplus_lt_r. reflexivity. }
  rewrite <- Zlt_Qlt in H. lia.
Qed.

(** Scaling an integer velocity by [1 - impact] and rounding keeps it
    between zero and the velocity, for every impact between 0 and 1. *)
Lemma blocker_scaling_bounds (velocity : Z) (impact : Q) :
  0 <= velocity -> (0 <= impact <= 1)%Q ->
  0 <= Math_round (inject_Z velocity * (1 - impact)) <= velocity.
Proof.
  intros Hv [H0 H1].
  assert (Hvq : (0 <= inject_Z velocity)%Q) by (rewrite <- (Zle_Qle 0); exact Hv).
  split.
  - apply Math_round_nonneg. apply Qmult_le_0_compat; [exact Hvq|].
    unfold Qminus. rewrite <- (Qplus_opp_r impact).
    apply Qplus_le_l. exact H1.
  - apply Math_round_below_succ.
    apply Qle_trans with (1 * inject_Z velocity)%Q.
    + rewrite (Qmult_comm (inject_Z velocity)).
      apply Qmult_le_compat_r; [|exact Hvq].
      unfold Qminus. rewrite <- (Qplus_0_r 1) at 2.
      apply Qplus_le_r.
      apply (Qopp_le_compat 0 impact). exact H0.
    + rewrite Qmult_1_l. apply Qle_refl.
Qed.

(** ** Sampler *)

Section SamplerFacts.
Variable M : MathLib.
Variable draws : nat -> Q.

Lemma sampleVelocity_pos (vd : VelocityData) (pos : nat) :
  (sampleVelocity M draws vd pos).2 = S (S pos).
Proof. reflexivity. Qed.

Lemma sampleVelocity_nonneg (vd : VelocityData) (pos : nat) :
  0 <= (sampleVelocity M draws vd pos).1.
Proof. cbn. unfold Math_max. lia. Qed.

Lemma applyRandomBlockers_eq (velocity : Z) (pos : nat) :
  applyRandomBlockers draws velocity pos =
    if Qltb (draws pos) blockerProbability then
      (Math_round (inject_Z velocity
                   * (1 - ((2 # 10) + draws (S pos) * (4 # 10)))), S (S pos))
    else (velocity, S pos).
Proof.
  unfold applyRandomBlockers, bind, Math_random.
  destruct (Qltb (draws pos) blockerProbability); reflexivity.
Qed.

Lemma applyRandomBlockers_bounds (velocity : Z) (pos : nat) :
  (forall k, 0 <= draws k < 1)%Q -> 0 <= velocity ->
  0 <= (applyRandomBlockers draws velocity pos).1 <= velocity.
Proof.
  intros Hu Hv. rewrite applyRandomBlockers_eq.
  destruct (Qltb (draws pos) blockerProbability); cbn [fst]; [|lia].
  apply blocker_scaling_bounds; [exact Hv|].
  specialize (Hu (S pos)). lra.
Qed.

Lemma effectiveVelocity_eq (vd : VelocityData) (params : SimulationParams) (pos : nat) :
  effectiveVelocity M draws vd params pos =
    if includeBlockers params then
      applyRandomBlockers draws (sampleVelocity M draws vd pos).1 (S (S pos))
    else sampleVelocity M draws vd pos.
Proof.
  unfold effectiveVelocity, bind.
  destruct (sampleVelocity M draws vd pos) as [v p] eqn:E.
  assert (p = S (S pos)) as -> by (rewrite <- (sampleVelocity_pos vd pos), E; reflexivity).
  destruct (includeBlockers params); reflexivity.
Qed.

Lemma effectiveVelocity_bounds (vd : VelocityData) (params : SimulationParams) (pos : nat) :
  (forall k, 0 <= draws k < 1)%Q ->
  0 <= (effectiveVelocity M draws vd params pos).1 <= (sampleVelocity M draws vd pos).1.
Proof.
  intros Hu. rewrite effectiveVelocity_eq.
  pose proof (sampleVelocity_nonneg vd pos) as Hs.
  destruct (includeBlockers params); [|lia].
  apply applyRandomBlockers_bounds; assumption.
Qed.
End SamplerFacts.



(** ** Simulation runner *)

(** Case analysis on the loop condition [remainingPoints > 0]. *)
Ltac loop_condition r E :=
  destruct (Qltb 0 r) eqn:E;
  [ apply Qltb_lt in E | apply Qltb_ge, Qle_not_lt in E ].

Section RunnerFacts.
Variable M : MathLib.
Variable draws : nat -> Q.
Variable vd : VelocityData.
Variable params : SimulationParams.

Local Abbreviation loop := (whileRemaining M draws vd params).
Local Abbreviation body := (effectiveVelocity M draws vd params).
Local Abbreviation after := (afterPeriods M draws vd params).

Lemma whileRemaining_exhausted (fuel : nat) (r : Q) (p : Z) (pos : nat) :
  ~ (0 < r)%Q -> loop fuel r p pos = Some (p, pos).
Proof.
  intros H. apply Qnot_lt_le, Qltb_ge in H.
  destruct fuel; cbn; rewrite H; reflexivity.
Qed.

Lemma whileRemaining_out_of_fuel (r : Q) (p : Z) (pos : nat) :
  (0 < r)%Q -> loop 0 r p pos = None.
Proof. intros H. apply Qltb_lt in H. cbn. rewrite H. reflexivity. Qed.

Lemma whileRemaining_step (fuel : nat) (r : Q) (p : Z) (pos : nat) :
  (0 < r)%Q ->
  loop (S fuel) r p pos
  = loop fuel (r - inject_Z (body pos).1)%Q (p + 1) (body pos).2.
Proof.
  intros H. apply Qltb_lt in H.
  change (loop (S fuel) r p pos)
    with (if Qltb 0 r then
            let (v, pos') := body pos in
            loop fuel (r - inject_Z v)%Q (p + 1) pos'
          else Some (p, pos)).
  rewrite H. destruct (body pos); reflexivity.
Qed.

Lemma afterPeriods_S (n : nat) (r : Q) (pos : nat) :
  after (S n) r pos = after n (r - inject_Z (body pos).1)%Q (body pos).2.
Proof.
  change (after (S n) r pos)
    with (let (v, pos') := body pos in after n (r - inject_Z v)%Q pos').
  destruct (body pos); reflexivity.
Qed.

(** A loop with no work left makes no pass. *)
Lemma no_pass_iff (fuel : nat) (r : Q) (p : Z) (pos : nat) (p' : Z) (pos' : nat) :
  ~ (0 < r)%Q ->
  Some (p, pos) = Some (p', pos') <->
  exists n : nat,
    (n <= fuel)%nat /\ p' = p + Z.of_nat n
    /\ (after n r pos).2 = pos'
    /\ ~ (0 < (after n r pos).1)%Q
    /\ forall m : nat, (m < n)%nat -> (0 < (after m r pos).1)%Q.
Proof.
  intros Hr. split.
  - intros [= <- <-]. exists 0%nat. cbn.
    repeat split; [lia | lia | exact Hr | intros m Hm; lia].
  - intros (n & _ & -> & <- & _ & Hgo). destruct n as [|n].
    + cbn. f_equal. f_equal. lia.
    + exfalso. apply Hr. apply (Hgo 0%nat). lia.
Qed.


(** With velocities that are all zero, a trial with work left never returns. *)
Lemma whileRemaining_zero_velocity (fuel : nat) (r : Q) (p : Z) (pos : nat) :
  (forall k, (body k).1 = 0) -> (0 < r)%Q -> loop fuel r p pos = None.
Proof.
  intros Hz. revert r p pos. induction fuel as [|fuel IH]; intros r p pos Hr.
  - apply whileRemaining_out_of_fuel. exact Hr.
  - rewrite whileRemaining_step by exact Hr. apply IH.
    rewrite Hz. change (inject_Z 0) with 0%Q. lra.
Qed.

Lemma forTrials_exhausted (fuel : nat) (total : Q) (n : nat) (acc : list Z) (pos : nat) :
  ~ (0 < total)%Q ->
  forTrials M draws vd params fuel total n acc pos = Some (acc ++ replicate n 0, pos).
Proof.
  intros H. revert acc. induction n as [|n IH]; intros acc; cbn.
  - rewrite app_nil_r. reflexivity.
  - rewrite whileRemaining_exhausted by exact H.
    rewrite IH, <- app_assoc. reflexivity.
Qed.

Lemma forTrials_diverges (fuel : nat) (total : Q) (n : nat) (acc : list Z) (pos : nat) :
  (forall k, (body k).1 = 0) -> (0 < total)%Q -> (0 < n)%nat ->
  forTrials M draws vd params fuel total n acc pos = None.
Proof.
  intros Hz Ht Hn. destruct n as [|n]; [lia|]. cbn.
  rewrite whileRemaining_zero_velocity by assumption. reflexivity.
Qed.

Lemma forTrials_length (fuel : nat) (total : Q) (n : nat) (acc : list Z) (pos : nat)
    (res : list Z) (pos' : nat) :
  forTrials M draws vd params fuel total n acc pos = Some (res, pos') ->
  length res = (length acc + n)%nat.
Proof.
  revert acc pos. induction n as [|n IH]; intros acc pos; cbn.
  - intros [= <- <-]. lia.
  - destruct (loop fuel total 0 pos) as [[p q]|]; [|discriminate].
    intros H. apply IH in H. rewrite H, length_app. cbn. lia.
Qed.
End RunnerFacts.


(** ** The array store *)

Lemma deref_insert_eq (h : store) (a : nat) (xs : list Z) : deref (<[a := xs]> h) a = xs.
Proof. unfold deref. rewrite lookup_insert_eq. reflexivity. Qed.

Lemma deref_insert_ne (h : store) (a b : nat) (xs : list Z) :
  a <> b -> deref (<[a := xs]> h) b = deref h b.
Proof. intros H. unfold deref. rewrite lookup_insert_ne by exact H. reflexivity. Qed.

(** Copying an array and sorting the copy adds one array, the sorted one. *)
Lemma sort_of_spread (a : nat) (h : store) :
  sort_ascending (spread a h).1 (spread a h).2
  = (fresh (dom h), <[fresh (dom h) := merge_sort Z.le (deref h a)]> h).
Proof.
  unfold sort_ascending, spread, alloc. cbn [fst snd].
  rewrite deref_insert_eq, insert_insert_eq. reflexivity.
Qed.

Lemma sorted_copy_frame (a : nat) (h : store) (xs : list Z) :
  h ⊆ <[fresh (dom h) := xs]> h.
Proof. apply insert_subseteq, not_elem_of_dom, is_fresh. Qed.

Lemma sorted_copy_deref (a : nat) (h : store) :
  deref (<[fresh (dom h) := merge_sort Z.le (deref h a)]> h) a = deref h a.
Proof.
  destruct (decide (fresh (dom h) = a)) as [E|E].
  - rewrite E at 1. rewrite deref_insert_eq.
    assert (Hn : h !! a = None) by (rewrite <- E; apply not_elem_of_dom, is_fresh).
    unfold deref. rewrite Hn. reflexivity.
  - apply deref_insert_ne. exact E.
Qed.

Lemma calculateConfidenceIntervals_eq {L : Type} (index_of : nat -> L -> option Z)
    (now : nat -> Z) (a : nat) (levels : list L) (h : store) :
  calculateConfidenceIntervals index_of now a levels h
  = (mapLevels index_of now (merge_sort Z.le (deref h a)) 0 levels,
     <[fresh (dom h) := merge_sort Z.le (deref h a)]> h).
Proof.
  unfold calculateConfidenceIntervals.
  destruct (spread a h) as [c h1] eqn:E1.
  pose proof (sort_of_spread a h) as E2. rewrite E1 in E2. cbn [fst snd] in E2.
  rewrite E2. rewrite deref_insert_eq. reflexivity.
Qed.

Lemma calculateMedian_eq (a : nat) (h : store) :
  calculateMedian a h
  = (middleOf (merge_sort Z.le (deref h a)),
     <[fresh (dom h) := merge_sort Z.le (deref h a)]> h).
Proof.
  unfold calculateMedian.
  destruct (spread a h) as [c h1] eqn:E1.
  pose proof (sort_of_spread a h) as E2. rewrite E1 in E2. cbn [fst snd] in E2.
  rewrite E2. rewrite deref_insert_eq. reflexivity.
Qed.

(** C10. The reducer sorts a copy: after [calculateConfidenceIntervals], and
    after [calculateMedian], every array of the store is as before, the
    input among them with its elements in their original order; the store
    has gained one array, the sorted copy. *)
Theorem reducer_sorts_a_copy {L : Type} (index_of : nat -> L -> option Z)
    (now : nat -> Z) (simulationResults : nat) (confidenceLevels : list L) (h : store) :
  let h1 := (calculateConfidenceIntervals index_of now simulationResults
               confidenceLevels h).2 in
  let h2 := (calculateMedian simulationResults h).2 in
  (h ⊆ h1 /\ deref h1 simulationResults = deref h simulationResults
   /\ deref h1 (fresh (dom h)) = merge_sort Z.le (deref h simulationResults))
  /\ (h ⊆ h2 /\ deref h2 simulationResults = deref h simulationResults
      /\ deref h2 (fresh (dom h)) = merge_sort Z.le (deref h simulationResults)).
Proof.
  cbv zeta. rewrite calculateConfidenceIntervals_eq, calculateMedian_eq. cbn [snd].
  repeat split;
    first [ apply sorted_copy_frame; exact simulationResults
          | apply sorted_copy_deref
          | apply deref_insert_eq ].
Qed.

(** ** Percentile reducer *)

Lemma isoDate_add_days (t d : Z) : isoDate (t + d * msPerDay) = isoDate t + d.
Proof. unfold isoDate. apply Z.div_add. discriminate. Qed.

Lemma element_Some (array : list Z) (index : option Z) (x : Z) :
  element array index = Some x ->
  exists i, index = Some i /\ 0 <= i /\ array !! Z.to_nat i = Some x.
Proof.
  destruct index as [i|]; [|discriminate]. cbn.
  destruct (Z.leb_spec 0 i) as [Hi|Hi]; [|discriminate].
  intros Hx. exists i. auto.
Qed.

Lemma length_merge_sort (l : list Z) : length (merge_sort Z.le l) = length l.
Proof. apply Permutation_length, merge_sort_Permutation. Qed.

Lemma element_elem_of (array : list Z) (index : option Z) (x : Z) :
  element array index = Some x -> x ∈ array.
Proof.
  intros H. apply element_Some in H as (i & _ & _ & H).
  eapply list_elem_of_lookup_2. exact H.
Qed.

Section ReducerFacts.
Context {L : Type}.
Variable index_of : nat -> L -> option Z.
Variable now : nat -> Z.

Lemma interval_returned (sortedResults : list Z) (today : Z) (level : L)
    (ci : ConfidenceInterval L) :
  interval index_of sortedResults today level = Returned ci ->
  element sortedResults (index_of (length sortedResults) level) = Some (periodsRequired ci)
  /\ confidence ci = level
  /\ daysRemaining ci = periodsRequired ci * 14
  /\ completionDate ci = isoDate today + periodsRequired ci * 14.
Proof.
  unfold interval.
  destruct (element sortedResults (index_of (length sortedResults) level)) as [p|];
    [|discriminate].
  destruct (validTime (today + p * 14 * msPerDay)); [|discriminate].
  intros [= <-]. cbn. rewrite isoDate_add_days. auto.
Qed.

Lemma mapLevels_returned (sortedResults : list Z) (k : nat) (levels : list L)
    (cis : list (ConfidenceInterval L)) :
  mapLevels index_of now sortedResults k levels = Returned cis ->
  length cis = length levels
  /\ forall j ci, cis !! j = Some ci ->
       exists level, levels !! j = Some level
         /\ interval index_of sortedResults (now (k + j)%nat) level = Returned ci.
Proof.
  revert k cis. induction levels as [|level rest IH]; intros k cis; cbn.
  - intros [= <-]. split; [reflexivity|]. intros j ci H. discriminate.
  - destruct (interval index_of sortedResults (now k) level) as [ci0|] eqn:E0;
      [|discriminate].
    destruct (mapLevels index_of now sortedResults (S k) rest) as [cis0|] eqn:E1;
      [|discriminate].
    intros [= <-]. destruct (IH _ _ E1) as [Hlen Hall]. split.
    + cbn. rewrite Hlen. reflexivity.
    + intros [|j] ci; cbn.
      * intros [= <-]. exists level. rewrite Nat.add_0_r. auto.
      * intros H. destruct (Hall j ci H) as (lv & Hlv & Hi).
        exists lv. rewrite Nat.add_succ_r. auto.
Qed.

Lemma mapLevels_confidence (sortedResults : list Z) (k : nat) (levels : list L)
    (cis : list (ConfidenceInterval L)) :
  mapLevels index_of now sortedResults k levels = Returned cis ->
  confidence <$> cis = levels.
Proof.
  revert k cis. induction levels as [|level rest IH]; intros k cis; cbn.
  - intros [= <-]. reflexivity.
  - destruct (interval index_of sortedResults (now k) level) as [ci0|] eqn:E0;
      [|discriminate].
    destruct (mapLevels index_of now sortedResults (S k) rest) as [cis0|] eqn:E1;
      [|discriminate].
    intros [= <-]. cbn. apply interval_returned in E0 as (_ & -> & _).
    rewrite (IH _ _ E1). reflexivity.
Qed.

(** What an interval returned by the reducer holds: a trial result of the
    input, fourteen days for each period, counted from the day read from
    the clock when the interval was built. *)
Lemma calculateConfidenceIntervals_returned (a : nat) (levels : list L) (h h' : store)
    (cis : list (ConfidenceInterval L)) (j : nat) (ci : ConfidenceInterval L) :
  calculateConfidenceIntervals index_of now a levels h = (Returned cis, h') ->
  cis !! j = Some ci ->
  levels !! j = Some (confidence ci)
  /\ element (merge_sort Z.le (deref h a))
       (index_of (length (deref h a)) (confidence ci)) = Some (periodsRequired ci)
  /\ periodsRequired ci ∈ deref h a
  /\ daysRemaining ci = periodsRequired ci * 14
  /\ completionDate ci = isoDate (now j) + periodsRequired ci * 14.
Proof.
  rewrite calculateConfidenceIntervals_eq. intros [= Hmap _] Hj.
  apply mapLevels_returned in Hmap as [_ Hall].
  destruct (Hall j ci Hj) as (level & Hlevel & Hint).
  apply interval_returned in Hint as (Hel & Hc & Hd & Hdate).
  subst level. rewrite length_merge_sort in Hel.
  repeat split; try assumption.
  apply element_elem_of in Hel.
  rewrite merge_sort_Permutation in Hel. exact Hel.
Qed.
End ReducerFacts.

Lemma StronglySorted_lookup_le (l : list Z) (i j : nat) (x y : Z) :
  StronglySorted Z.le l -> (i <= j)%nat ->
  l !! i = Some x -> l !! j = Some y -> x <= y.
Proof.
  intros Hs. revert i j. induction Hs as [|a l Hs IH Ha]; intros i j Hij Hi Hj.
  - discriminate.
  - destruct i as [|i], j as [|j]; cbn in *.
    + injection Hi as <-. injection Hj as <-. lia.
    + injection Hi as <-.
      rewrite List.Forall_forall in Ha. apply Ha.
      apply list_elem_of_In. eapply list_elem_of_lookup_2. exact Hj.
    + lia.
    + apply (IH i j); [lia | assumption | assumption].
Qed.

Lemma percentileIndex_mono (n : nat) (p q : Q) (i j : Z) :
  (p <= q)%Q -> percentileIndex n p = Some i -> percentileIndex n q = Some j -> i <= j.
Proof.
  unfold percentileIndex. intros Hpq Hi Hj.
  assert (Ei : i = Qfloor (inject_Z (Z.of_nat n) * (p / 100))) by congruence.
  assert (Ej : j = Qfloor (inject_Z (Z.of_nat n) * (q / 100))) by congruence.
  rewrite Ei, Ej. apply Qfloor_resp_le.
  rewrite !(Qmult_comm (inject_Z (Z.of_nat n))).
  apply Qmult_le_compat_r.
  - unfold Qdiv. apply Qmult_le_compat_r; [exact Hpq | discriminate].
  - rewrite <- (Zle_Qle 0). lia.
Qed.

(** For a non-empty array and a level from 0 up to, not including, 100 the
    index lies within the array. *)
Lemma percentileIndex_in_range (n : nat) (p : Q) :
  (0 < n)%nat -> (0 <= p)%Q -> (p < 100)%Q ->
  exists i, percentileIndex n p = Some i /\ 0 <= i < Z.of_nat n.
Proof.
  intros Hn H0 H100. eexists. split; [reflexivity|].
  set (N := inject_Z (Z.of_nat n)).
  assert (HN : (0 < N)%Q) by (unfold N; rewrite <- (Zlt_Qlt 0); lia).
  assert (Hd0 : (0 <= p / 100)%Q).
  { unfold Qdiv. apply Qmult_le_0_compat; [exact H0 | discriminate]. }
  assert (Hd1 : (p / 100 < 1)%Q).
  { apply Qlt_shift_div_r; [reflexivity | lra]. }
  split.
  - change 0 with (Qfloor 0). apply Qfloor_resp_le.
    apply Qmult_le_0_compat; [lra | exact Hd0].
  - assert (H : (inject_Z (Qfloor (N * (p / 100))) < N)%Q).
    { eapply Qle_lt_trans; [apply Qfloor_le|].
      rewrite <- (Qmult_1_r N) at 2. apply Qmult_lt_l; assumption. }
    unfold N in H at 2. rewrite <- Zlt_Qlt in H. exact H.
Qed.







(** C3. In binary64 the rank of level 70 among 90 trial results evaluates
    to 62: [70 / 100] rounds to a number below 0.7 and its product with 90
    to 62.99999999999999. For the request the form sends, on the trial
    results 1 to 90, the reducer reports for level 70 the element at index
    62 of the sorted copy, 63, where index [floor(90 * 70 / 100) = 63]
    holds 64. *)
Theorem percentile_index_binary64_one_below :
  percentileIndex 90 70 = Some 63
  /\ percentileIndex64 90 70 = Some 62
  /\ merge_sort Z.le (seqZ 1 90) !! 63%nat = Some 64
  /\ (calculateConfidenceIntervals percentileIndex64 (fun _ => 0) 0%nat
        [50; 70; 85; 95]%float {[ 0%nat := seqZ 1 90 ]}).1
     = Returned
         [{| confidence := 50%float; periodsRequired := 46;
             daysRemaining := 644; completionDate := 644 |};
          {| confidence := 70%float; periodsRequired := 63;
             daysRemaining := 882; completionDate := 882 |};
          {| confidence := 85%float; periodsRequired := 77;
             daysRemaining := 1078; completionDate := 1078 |};
          {| confidence := 95%float; periodsRequired := 86;
             daysRemaining := 1204; completionDate := 1204 |}].
Proof.
  repeat split; vm_compute; reflexivity.
Qed.

(** ** The forecast *)

Section ForecastFacts.
Context {L : Type}.
Variable index_of : nat -> L -> option Z.
Variable M : MathLib.
Variable now : nat -> Z.

(** The report read off the elements of the array. The mean and the standard
    deviation are taken after the reducer has run, the median after that:
    they see the elements in their original order because the reducer and
    the median sort copies. *)
Lemma monteCarlo_report_eq (a : nat) (h : store) (iterations : Z) (levels : list L) :
  monteCarlo_report index_of M now a h iterations levels
  = match mapLevels index_of now (merge_sort Z.le (deref h a)) 0 levels with
    | Thrown e => Thrown e
    | Returned cis =>
        Returned
          {| iterations := iterations;
             confidenceIntervals := cis;
             simulationSummary :=
               {| Summary.mean := calculateMean (deref h a);
                  Summary.median := middleOf (merge_sort Z.le (deref h a));
                  Summary.standardDeviation :=
                    calculateStandardDeviation M (deref h a) |} |}
    end.
Proof.
  unfold monteCarlo_report. rewrite calculateConfidenceIntervals_eq.
  destruct (mapLevels index_of now (merge_sort Z.le (deref h a)) 0 levels);
    [|reflexivity].
  set (h1 := <[fresh (dom h) := merge_sort Z.le (deref h a)]> h).
  rewrite calculateMedian_eq. rewrite (sorted_copy_deref a h1).
  unfold h1. rewrite (sorted_copy_deref a h). reflexivity.
Qed.

Lemma monteCarlo_eq (draws : nat -> Q) (fuel : nat) (issuesData : option IssuesData)
    (boardsData : BoardsData) (iterations : Z) (levels : list L)
    (params : SimulationParams) :
  monteCarlo index_of M draws now fuel issuesData boardsData iterations levels params
  = match runMonteCarloSimulation M draws (fetchHistoricalVelocity boardsData) params
            fuel issuesData iterations 0 with
    | None => None
    | Some (results, _) =>
        Some (monteCarlo_report index_of M now 0%nat {[ 0%nat := results ]}
                iterations levels)
    end.
Proof.
  unfold monteCarlo.
  destruct (runMonteCarloSimulation M draws (fetchHistoricalVelocity boardsData)
              params fuel issuesData iterations 0) as [[results pos]|]; reflexivity.
Qed.

Lemma deref_singleton (xs : list Z) : deref {[ 0%nat := xs ]} 0%nat = xs.
Proof. unfold deref. rewrite lookup_singleton_eq. reflexivity. Qed.
End ForecastFacts.

(** ** Dependence on the ambient draws *)

Section Agreement.
Variable M : MathLib.
Variables d1 d2 : nat -> Q.
Variable vd : VelocityData.
Variable params : SimulationParams.
Variable n : nat.
Hypothesis agree : forall k, (k < n)%nat -> d1 k = d2 k.

Lemma sampleVelocity_agree (pos : nat) :
  (S (S pos) <= n)%nat -> sampleVelocity M d2 vd pos = sampleVelocity M d1 vd pos.
Proof.
  intros H. unfold sampleVelocity, bind, Math_random, ret.
  rewrite <- (agree pos) by lia. rewrite <- (agree (S pos)) by lia. reflexivity.
Qed.

Lemma applyRandomBlockers_agree (velocity : Z) (pos : nat) :
  ((applyRandomBlockers d1 velocity pos).2 <= n)%nat ->
  applyRandomBlockers d2 velocity pos = applyRandomBlockers d1 velocity pos.
Proof.
  rewrite !applyRandomBlockers_eq.
  destruct (Qltb (d1 pos) blockerProbability) eqn:E; cbn [snd]; intros H;
    rewrite <- (agree pos) by lia; rewrite E.
  - rewrite <- (agree (S pos)) by lia. reflexivity.
  - reflexivity.
Qed.

Lemma applyRandomBlockers_pos_lt (d : nat -> Q) (velocity : Z) (pos : nat) :
  (pos < (applyRandomBlockers d velocity pos).2)%nat.
Proof.
  rewrite applyRandomBlockers_eq.
  destruct (Qltb (d pos) blockerProbability); cbn [snd]; lia.
Qed.

Lemma effectiveVelocity_pos_lt (d : nat -> Q) (pos : nat) :
  (S pos < (effectiveVelocity M d vd params pos).2)%nat.
Proof.
  rewrite effectiveVelocity_eq. destruct (includeBlockers params).
  - pose proof (applyRandomBlockers_pos_lt d (sampleVelocity M d vd pos).1 (S (S pos))).
    lia.
  - rewrite sampleVelocity_pos. lia.
Qed.

Lemma effectiveVelocity_agree (pos : nat) :
  ((effectiveVelocity M d1 vd params pos).2 <= n)%nat ->
  effectiveVelocity M d2 vd params pos = effectiveVelocity M d1 vd params pos.
Proof.
  rewrite !effectiveVelocity_eq. destruct (includeBlockers params); intros H.
  - pose proof (applyRandomBlockers_pos_lt d1 (sampleVelocity M d1 vd pos).1 (S (S pos))).
    rewrite sampleVelocity_agree by lia.
    apply applyRandomBlockers_agree. exact H.
  - rewrite sampleVelocity_pos in H. apply sampleVelocity_agree. exact H.
Qed.

Lemma whileRemaining_pos_le (d : nat -> Q) (fuel : nat) (r : Q) (p : Z) (pos : nat)
    (p' : Z) (pos' : nat) :
  whileRemaining M d vd params fuel r p pos = Some (p', pos') -> (pos <= pos')%nat.
Proof.
  revert r p pos. induction fuel as [|fuel IH]; intros r p pos;
    loop_condition r E.
  - rewrite whileRemaining_out_of_fuel by exact E. discriminate.
  - rewrite whileRemaining_exhausted by exact E. intros [= _ <-]. lia.
  - rewrite whileRemaining_step by exact E. intros H.
    apply IH in H. pose proof (effectiveVelocity_pos_lt d pos). lia.
  - rewrite whileRemaining_exhausted by exact E. intros [= _ <-]. lia.
Qed.

Lemma whileRemaining_agree (fuel : nat) (r : Q) (p : Z) (pos : nat) (p' : Z) (pos' : nat) :
  whileRemaining M d1 vd params fuel r p pos = Some (p', pos') -> (pos' <= n)%nat ->
  whileRemaining M d2 vd params fuel r p pos = Some (p', pos').
Proof.
  revert r p pos. induction fuel as [|fuel IH]; intros r p pos;
    loop_condition r E.
  - rewrite !whileRemaining_out_of_fuel by exact E. discriminate.
  - rewrite !whileRemaining_exhausted by exact E. auto.
  - rewrite !whileRemaining_step by exact E. intros H Hn.
    pose proof (whileRemaining_pos_le _ _ _ _ _ _ _ H) as Hle.
    rewrite effectiveVelocity_agree by lia. apply IH; assumption.
  - rewrite !whileRemaining_exhausted by exact E. auto.
Qed.

Lemma forTrials_pos_le (d : nat -> Q) (fuel : nat) (total : Q) (m : nat) (acc : list Z)
    (pos : nat) (res : list Z) (pos' : nat) :
  forTrials M d vd params fuel total m acc pos = Some (res, pos') -> (pos <= pos')%nat.
Proof.
  revert acc pos. induction m as [|m IH]; intros acc pos; cbn.
  - intros [= _ <-]. lia.
  - destruct (whileRemaining M d vd params fuel total 0 pos) as [[p q]|] eqn:E;
      [|discriminate].
    intros H. apply IH in H. apply whileRemaining_pos_le in E. lia.
Qed.

Lemma forTrials_agree (fuel : nat) (total : Q) (m : nat) (acc : list Z) (pos : nat)
    (res : list Z) (pos' : nat) :
  forTrials M d1 vd params fuel total m acc pos = Some (res, pos') -> (pos' <= n)%nat ->
  forTrials M d2 vd params fuel total m acc pos = Some (res, pos').
Proof.
  revert acc pos. induction m as [|m IH]; intros acc pos; cbn.
  - auto.
  - destruct (whileRemaining M d1 vd params fuel total 0 pos) as [[p q]|] eqn:E;
      [|discriminate].
    intros H Hn. pose proof (forTrials_pos_le _ _ _ _ _ _ _ _ H) as Hle.
    rewrite (whileRemaining_agree _ _ _ _ _ _ E) by lia.
    apply IH; assumption.
Qed.
End Agreement.

(** With no history the velocity of every period is zero. *)
Lemma effectiveVelocity_zero_history (M : MathLib) (draws : nat -> Q)
    (params : SimulationParams) (pos : nat) :
  (effectiveVelocity M draws {| velocities := []; mean := 0; stdDev := 0 |} params pos).1
  = 0.
Proof.
  assert (Hs : forall p,
    (sampleVelocity M draws {| velocities := []; mean := 0; stdDev := 0 |} p).1 = 0).
  { intros p. unfold sampleVelocity, bind, Math_random, ret.
    cbn [fst mean stdDev]. unfold Math_round.
    set (z := (Math_sqrt M (-2 * Math_log M (draws p))
               * Math_cos M (2 * Math_PI M * draws (S p)))%Q).
    assert (E : (0 + z * 0 + (1 # 2) == 1 # 2)%Q) by ring.
    rewrite E. reflexivity. }
  rewrite effectiveVelocity_eq. destruct (includeBlockers params); [|apply Hs].
  rewrite Hs, applyRandomBlockers_eq.
  destruct (Qltb (draws (S (S pos))) blockerProbability); [|reflexivity].
  cbn [fst]. unfold Math_round.
  set (i := ((2 # 10) + draws (S (S (S pos))) * (4 # 10))%Q).
  assert (E : (inject_Z 0 * (1 - i) + (1 # 2) == 1 # 2)%Q) by ring.
  rewrite E. reflexivity.
Qed.

Lemma fetchHistoricalVelocity_no_board (boardsData : BoardsData) :
  values boardsData = None \/ values boardsData = Some [] ->
  fetchHistoricalVelocity boardsData = {| velocities := []; mean := 0; stdDev := 0 |}.
Proof. unfold fetchHistoricalVelocity. intros [-> | ->]; reflexivity. Qed.



Lemma runMonteCarloSimulation_no_work (M : MathLib) (draws : nat -> Q)
    (vd : VelocityData) (params : SimulationParams) (fuel : nat)
    (issuesData : option IssuesData) (n : Z) (pos : nat) :
  ~ (0 < calculateTotalRemainingStoryPoints issuesData)%Q ->
  runMonteCarloSimulation M draws vd params fuel issuesData n pos
  = Some (replicate (Z.to_nat n) 0, pos).
Proof.
  intros H. unfold runMonteCarloSimulation.
  rewrite forTrials_exhausted by exact H. reflexivity.
Qed.

Lemma mapLevels_total (now : nat -> Z) (sortedResults : list Z) (k : nat)
    (levels : list Q) :
  (0 < length sortedResults)%nat ->
  Forall (fun p => 0 <= p /\ p < 100)%Q levels ->
  (forall j x, x ∈ sortedResults -> validTime (now j + x * 14 * msPerDay) = true) ->
  exists cis, mapLevels percentileIndex now sortedResults k levels = Returned cis.
Proof.
  intros Hlen Hlv Hvalid. revert k.
  induction Hlv as [|p levels [H0 H100] _ IH]; intros k.
  - exists []. reflexivity.
  - destruct (percentileIndex_in_range _ p Hlen H0 H100) as (i & Hi & Hr).
    destruct (lookup_lt_is_Some_2 sortedResults (Z.to_nat i)) as [x Hx]; [lia|].
    destruct (IH (S k)) as [cis Hcis].
    eexists. cbn [mapLevels]. unfold interval. rewrite Hi. cbn [element].
    destruct (Z.leb_spec 0 i); [|lia]. rewrite Hx.
    rewrite Hvalid by (eapply list_elem_of_lookup_2; exact Hx).
    rewrite Hcis. reflexivity.
Qed.



(** C7, as the code has it. The object a completed forecast returns holds
    [iterations], the confidence intervals and the summary, each computed
    from the trial results of the run, of which there are as many as
    [iterations] asks for; the trial results themselves are no part of it. *)
Theorem forecast_result_summarises_trials {L : Type} (index_of : nat -> L -> option Z)
    (M : MathLib) (draws : nat -> Q) (now : nat -> Z) (fuel : nat)
    (issuesData : option IssuesData) (boardsData : BoardsData) (n : Z)
    (levels : list L) (params : SimulationParams) (r : ForecastResult L) :
  monteCarlo index_of M draws now fuel issuesData boardsData n levels params
    = Some (Returned r) ->
  exists results pos,
    runMonteCarloSimulation M draws (fetchHistoricalVelocity boardsData) params
      fuel issuesData n 0 = Some (results, pos)
    /\ length results = Z.to_nat n
    /\ iterations r = n
    /\ confidence <$> confidenceIntervals r = levels
    /\ (forall ci, ci ∈ confidenceIntervals r -> periodsRequired ci ∈ results)
    /\ simulationSummary r
       = {| Summary.mean := calculateMean results;
            Summary.median := middleOf (merge_sort Z.le results);
            Summary.standardDeviation := calculateStandardDeviation M results |}.
Proof.
  rewrite monteCarlo_eq.
  destruct (runMonteCarloSimulation M draws (fetchHistoricalVelocity boardsData)
              params fuel issuesData n 0) as [[results pos]|] eqn:Hrun; [|discriminate].
  rewrite monteCarlo_report_eq, deref_singleton.
  destruct (mapLevels index_of now (merge_sort Z.le results) 0 levels)
    as [cis|] eqn:Hmap; [|discriminate].
  intros [= <-]. exists results, pos. cbn.
  split; [reflexivity|]. split.
  { unfold runMonteCarloSimulation in Hrun. apply forTrials_length in Hrun.
    exact Hrun. }
  split; [reflexivity|]. split; [eapply mapLevels_confidence; exact Hmap|].
  split; [|reflexivity].
  intros ci Hci. apply list_elem_of_lookup in Hci as [j Hj].
  apply mapLevels_returned in Hmap as [_ Hall].
  destruct (Hall j ci Hj) as (level & _ & Hint).
  apply interval_returned in Hint as (Hel & _).
  apply element_elem_of in Hel. rewrite merge_sort_Permutation in Hel. exact Hel.
Qed.

Lemma forecast_result_summarises_trials_witness :
  exists results pos,
    runMonteCarloSimulation exampleMath (fun _ => 1 # 2)%Q
      (fetchHistoricalVelocity oneBoard) exampleParams 10 (backlog 30) 2 0
      = Some (results, pos)
    /\ length results = Z.to_nat 2.
Proof.
  destruct (forecast_result_summarises_trials percentileIndex exampleMath
              (fun _ => 1 # 2)%Q (fun _ => 0) 10%nat (backlog 30) oneBoard 2
              [50%Q] exampleParams
              {| iterations := 2;
                 confidenceIntervals :=
                   [{| confidence := 50%Q; periodsRequired := 2;
                       daysRemaining := 28; completionDate := 28 |}];
                 simulationSummary :=
                   {| Summary.mean := Some (4 # 2)%Q;
                      Summary.median := Some (4 # 2)%Q;
                      Summary.standardDeviation := Some (1 # 4)%Q |} |})
    as (results & pos & Hrun & Hlen & _).
  - vm_compute. reflexivity.
  - exists results, pos. split; assumption.
Defined.

(** C7, as stated, fails: the trial results cannot be read off the object
    returned. The five results 1, 2, 4, 6, 7 and the five results
    1, 3, 4, 4, 8 give the same object, for every interpretation of Math. *)
Lemma trial_results_not_in_forecast_result :
  ~ exists (M : MathLib) (rawTrialResults : ForecastResult Q -> list Z),
      forall (results : list Z) (r : ForecastResult Q),
        monteCarlo_report percentileIndex M (fun _ => 0) 0%nat {[ 0%nat := results ]}
          5 [50%Q] = Returned r ->
        rawTrialResults r = results.
Proof.
  intros (M & raw & H).
  assert (E : monteCarlo_report percentileIndex M (fun _ => 0) 0%nat
                {[ 0%nat := [1; 2; 4; 6; 7] ]} 5 [50%Q]
              = monteCarlo_report percentileIndex M (fun _ => 0) 0%nat
                  {[ 0%nat := [1; 3; 4; 4; 8] ]} 5 [50%Q]).
  { rewrite !monteCarlo_report_eq, !deref_singleton. vm_compute. reflexivity. }
  destruct (monteCarlo_report percentileIndex M (fun _ => 0) 0%nat
              {[ 0%nat := [1; 2; 4; 6; 7] ]} 5 [50%Q]) as [r|e] eqn:E1.
  - pose proof (H _ _ E1) as H1. symmetry in E. pose proof (H _ _ E) as H2.
    rewrite H1 in H2. discriminate H2.
  - rewrite monteCarlo_report_eq, deref_singleton in E1.
    vm_compute in E1. discriminate E1.
Qed.




(** C2, as the code has it. The forecast takes no seed and no random source:
    [Math.random()] is ambient. A run is determined by its inputs together
    with the values the ambient source returns: when a run completes its
    simulation having consumed [consumed] draws, a run on the same inputs
    and clock that is dealt the same first [consumed] draws consumes as
    many, simulates the same trial results and gives the same forecast. *)
Theorem forecast_determined_by_draws_consumed {L : Type}
    (index_of : nat -> L -> option Z) (M : MathLib) (d1 d2 : nat -> Q)
    (now : nat -> Z) (fuel : nat) (issuesData : option IssuesData)
    (boardsData : BoardsData) (n : Z) (levels : list L) (params : SimulationParams)
    (results : list Z) (consumed : nat) :
  runMonteCarloSimulation M d1 (fetchHistoricalVelocity boardsData) params
    fuel issuesData n 0 = Some (results, consumed) ->
  (forall k, (k < consumed)%nat -> d1 k = d2 k) ->
  runMonteCarloSimulation M d2 (fetchHistoricalVelocity boardsData) params
    fuel issuesData n 0 = Some (results, consumed)
  /\ monteCarlo index_of M d2 now fuel issuesData boardsData n levels params
     = monteCarlo index_of M d1 now fuel issuesData boardsData n levels params.
Proof.
  intros Hrun Hagree.
  assert (Hrun2 : runMonteCarloSimulation M d2 (fetchHistoricalVelocity boardsData)
                    params fuel issuesData n 0 = Some (results, consumed)).
  { unfold runMonteCarloSimulation in *.
    eapply forTrials_agree; [exact Hagree | exact Hrun | lia]. }
  split; [exact Hrun2|].
  rewrite !monteCarlo_eq, Hrun, Hrun2. reflexivity.
Qed.

Lemma forecast_determined_by_draws_consumed_witness :
  monteCarlo percentileIndex exampleMath
    (fun k => if (k <? 6)%nat then 1 # 2 else 0)%Q (fun _ => 0) 10
    (backlog 30) oneBoard 1 [50%Q] exampleParams
  = monteCarlo percentileIndex exampleMath (fun _ => 1 # 2)%Q (fun _ => 0) 10
      (backlog 30) oneBoard 1 [50%Q] exampleParams.
Proof.
  apply (forecast_determined_by_draws_consumed percentileIndex exampleMath
           (fun _ => 1 # 2)%Q (fun k => if (k <? 6)%nat then 1 # 2 else 0)%Q
           (fun _ => 0) 10%nat (backlog 30) oneBoard 1 [50%Q] exampleParams
           [2] 6%nat).
  - vm_compute. reflexivity.
  - intros k Hk. apply Nat.ltb_lt in Hk. rewrite Hk. reflexivity.
Defined.

(** C2, as stated, fails. A sampling function called twice on the same
    argument returns 10 once and 8 once, by what the ambient source deals;
    and two forecasts on the same inputs and draws differ when the clock
    has moved on a day between them. *)
Lemma forecast_depends_on_ambient_state :
  (applyRandomBlockers (fun _ => 1 # 2)%Q 10 0%nat).1 = 10
  /\ (applyRandomBlockers (fun _ => 0)%Q 10 0%nat).1 = 8
  /\ ~ exists (M : MathLib) (draws : nat -> Q) (fuel : nat),
         monteCarlo percentileIndex M draws (fun _ => 0) fuel None oneBoard 1 [50%Q]
           exampleParams
         = monteCarlo percentileIndex M draws (fun _ => msPerDay) fuel None oneBoard 1
             [50%Q] exampleParams.
Proof.
  split; [vm_compute; reflexivity|]. split; [vm_compute; reflexivity|].
  intros (M & draws & fuel & H). revert H.
  rewrite !monteCarlo_eq, runMonteCarloSimulation_no_work by (cbn; apply Qlt_irrefl).
  rewrite !monteCarlo_report_eq, !deref_singleton.
  vm_compute. intros H. discriminate H.
Qed.

(** * Further properties of the code *)

(** ** Remaining story points *)

Lemma story_points_from (l : list Issue) (a : Q) :
  (fold_left (fun sum issue => sum + default 0 (customfield_10016 issue)) l a
   == a + fold_left (fun sum issue => sum + default 0 (customfield_10016 issue)) l 0)%Q.
Proof.
  revert a. induction l as [|i l IH]; intros a; cbn [fold_left].
  - ring.
  - rewrite (IH (a + _)%Q), (IH (0 + _)%Q). ring.
Qed.


(** ** Blockers *)

Lemma Math_round_le (x y : Q) : (x <= y)%Q -> Math_round x <= Math_round y.
Proof.
  intros H. unfold Math_round. apply Qfloor_resp_le. lra.
Qed.

(** X2. With [Math.random()] in [0, 1) and a velocity that is not negative:
    a first draw below 0.2 makes a blocker, which takes a second draw and
    leaves between 40% and 80% of the velocity, rounded; any other first
    draw leaves the velocity as it is and takes no second draw. *)
Theorem blocker_leaves_40_to_80_percent (draws : nat -> Q) (velocity : Z) (pos : nat) :
  (forall k, 0 <= draws k < 1)%Q -> 0 <= velocity ->
  ((draws pos < 2 # 10)%Q ->
     Math_round ((4 # 10) * inject_Z velocity)
       <= (applyRandomBlockers draws velocity pos).1
       <= Math_round ((8 # 10) * inject_Z velocity)
     /\ (applyRandomBlockers draws velocity pos).2 = S (S pos))
  /\ ((2 # 10 <= draws pos)%Q ->
        applyRandomBlockers draws velocity pos = (velocity, S pos)).
Proof.
  intros Hu Hv. rewrite applyRandomBlockers_eq. unfold blockerProbability.
  assert (Hq : (0 <= inject_Z velocity)%Q) by (rewrite <- (Zle_Qle 0); exact Hv).
  split.
  - intros Hb. apply Qltb_lt in Hb. rewrite Hb. cbn [fst snd].
    split; [|reflexivity].
    pose proof (Hu (S pos)) as [H0 H1].
    set (r := draws (S pos)) in *. set (v := inject_Z velocity) in *.
    split; apply Math_round_le.
    + assert (H : (0 <= v * ((6 # 10) - ((2 # 10) + r * (4 # 10))))%Q).
      { apply Qmult_le_0_compat; [exact Hq | lra]. }
      lra.
    + assert (H : (0 <= v * (r * (4 # 10)))%Q).
      { apply Qmult_le_0_compat; [exact Hq | lra]. }
      lra.
  - intros Hb. apply Qltb_ge in Hb. rewrite Hb. reflexivity.
Qed.

Lemma blocker_leaves_40_to_80_percent_witness :
  Math_round ((4 # 10) * inject_Z 10) <= (applyRandomBlockers (fun _ => 1 # 10)%Q 10 0%nat).1
    <= Math_round ((8 # 10) * inject_Z 10)
  /\ (applyRandomBlockers (fun _ => 1 # 10)%Q 10 0%nat).2 = 2%nat.
Proof.
  apply (blocker_leaves_40_to_80_percent (fun _ => 1 # 10)%Q 10 0%nat).
  - intros k. split; [discriminate | reflexivity].
  - lia.
  - reflexivity.
Defined.

(** ** Trials *)

Section TrialFacts.
Variable M : MathLib.
Variable draws : nat -> Q.
Variable vd : VelocityData.
Variable params : SimulationParams.

Lemma whileRemaining_counts_up (fuel : nat) (r : Q) (p : Z) (pos : nat)
    (p' : Z) (pos' : nat) :
  whileRemaining M draws vd params fuel r p pos = Some (p', pos') ->
  p <= p' /\ ((0 < r)%Q -> p + 1 <= p') /\ (~ (0 < r)%Q -> p' = p).
Proof.
  revert r p pos. induction fuel as [|fuel IH]; intros r p pos;
    loop_condition r E.
  - rewrite whileRemaining_out_of_fuel by exact E. discriminate.
  - rewrite whileRemaining_exhausted by exact E. intros [= <- _].
    repeat split; [lia | intros H; contradiction].
  - rewrite whileRemaining_step by exact E. intros H.
    apply IH in H as (H & _). repeat split; [lia | lia | intros Hn; contradiction].
  - rewrite whileRemaining_exhausted by exact E. intros [= <- _].
    repeat split; [lia | intros H; contradiction].
Qed.

Lemma forTrials_results (P : Z -> Prop) (fuel : nat) (total : Q) (n : nat)
    (acc : list Z) (pos : nat) (res : list Z) (pos' : nat) :
  (forall q p' q', whileRemaining M draws vd params fuel total 0 q = Some (p', q') -> P p') ->
  Forall P acc ->
  forTrials M draws vd params fuel total n acc pos = Some (res, pos') ->
  Forall P res.
Proof.
  intros HP. revert acc pos. induction n as [|n IH]; intros acc pos Hacc; cbn.
  - intros [= <- _]. exact Hacc.
  - destruct (whileRemaining M draws vd params fuel total 0 pos) as [[p q]|] eqn:E;
      [|discriminate].
    apply IH. apply Forall_app. split; [exact Hacc|].
    constructor; [|constructor]. eapply HP. exact E.
Qed.

(** X3. The trial results of a simulation that returns: there are as many
    as [iterations] asks for (none for a negative number), none is
    negative, each is at least 1 when story points are left, and each is 0
    when none are. *)
Theorem trial_results_count_periods (fuel : nat) (issuesData : option IssuesData)
    (n : Z) (pos : nat) (results : list Z) (pos' : nat) :
  runMonteCarloSimulation M draws vd params fuel issuesData n pos = Some (results, pos') ->
  length results = Z.to_nat n
  /\ Forall (fun p => 0 <= p) results
  /\ ((0 < calculateTotalRemainingStoryPoints issuesData)%Q ->
      Forall (fun p => 1 <= p) results)
  /\ (~ (0 < calculateTotalRemainingStoryPoints issuesData)%Q ->
      Forall (fun p => p = 0) results).
Proof.
  unfold runMonteCarloSimulation. intros H.
  split; [apply forTrials_length in H; exact H|].
  repeat split.
  - eapply forTrials_results; [|constructor|exact H].
    intros q p' q' Hq. apply whileRemaining_counts_up in Hq. lia.
  - intros Hwork. eapply forTrials_results; [|constructor|exact H].
    intros q p' q' Hq. apply whileRemaining_counts_up in Hq as (_ & Hq & _).
    specialize (Hq Hwork). lia.
  - intros Hno. eapply forTrials_results; [|constructor|exact H].
    intros q p' q' Hq. apply whileRemaining_counts_up in Hq as (_ & _ & Hq).
    exact (Hq Hno).
Qed.
End TrialFacts.

Lemma trial_results_count_periods_witness :
  length [2; 2; 2] = Z.to_nat 3
  /\ Forall (fun p => 0 <= p) [2; 2; 2]
  /\ ((0 < calculateTotalRemainingStoryPoints (backlog 50))%Q ->
      Forall (fun p => 1 <= p) [2; 2; 2])
  /\ (~ (0 < calculateTotalRemainingStoryPoints (backlog 50))%Q ->
      Forall (fun p => p = 0) [2; 2; 2]).
Proof.
  apply (trial_results_count_periods exampleMath
           (fun k => if Nat.even k then 1 # 10 else 3 # 4)%Q
           (fetchHistoricalVelocity oneBoard) exampleParams 100 (backlog 50) 3 0%nat
           [2; 2; 2] 24%nat).
  vm_compute. reflexivity.
Defined.

Lemma inject_Z_pred (n : Z) : (inject_Z (n - 1) == inject_Z n - 1)%Q.
Proof. unfold Z.sub. rewrite inject_Z_plus. reflexivity. Qed.

Lemma Qceiling_step_down (x y : Q) : (y <= x - 1)%Q -> Qceiling y <= Qceiling x - 1.
Proof.
  intros H. rewrite <- (Qceiling_Z (Qceiling x - 1)). apply Qceiling_resp_le.
  pose proof (Qle_ceiling x) as Hx. rewrite inject_Z_pred. lra.
Qed.

Lemma Qceiling_step_up (x y : Q) : (x - 1 <= y)%Q -> Qceiling x - 1 <= Qceiling y.
Proof.
  intros H. pose proof (Qceiling_lt x) as Hx. pose proof (Qle_ceiling y) as Hy.
  rewrite inject_Z_pred in Hx.
  assert (Hlt : (inject_Z (Qceiling x - 1 - 1) < inject_Z (Qceiling y))%Q).
  { rewrite !inject_Z_pred. lra. }
  rewrite <- Zlt_Qlt in Hlt. lia.
Qed.

Lemma Qceiling_pos (x : Q) : (0 < x)%Q -> 1 <= Qceiling x.
Proof.
  intros H. pose proof (Qle_ceiling x) as Hx.
  assert (Hlt : (inject_Z 0 < inject_Z (Qceiling x))%Q) by (change (inject_Z 0) with 0%Q; lra).
  rewrite <- Zlt_Qlt in Hlt. lia.
Qed.

Lemma Qceiling_nonpos (x : Q) : (x <= 0)%Q -> Qceiling x <= 0.
Proof. intros H. change 0 with (Qceiling 0). apply Qceiling_resp_le. exact H. Qed.

Lemma Qdiv_sub_ge (r : Q) (v m : Z) :
  0 < m -> m <= v -> ((r - inject_Z v) / inject_Z m <= r / inject_Z m - 1)%Q.
Proof.
  intros Hm Hv.
  assert (Hmq : (0 < inject_Z m)%Q) by (rewrite <- (Zlt_Qlt 0); exact Hm).
  assert (Hvq : (inject_Z m <= inject_Z v)%Q) by (rewrite <- Zle_Qle; exact Hv).
  assert (E : ((r - inject_Z v) / inject_Z m == r / inject_Z m - inject_Z v / inject_Z m)%Q).
  { field. lra. }
  assert (H1 : (1 <= inject_Z v / inject_Z m)%Q).
  { apply Qle_shift_div_l; [exact Hmq | lra]. }
  lra.
Qed.

Lemma Qdiv_sub_le (r : Q) (v m : Z) :
  0 < m -> v <= m -> (r / inject_Z m - 1 <= (r - inject_Z v) / inject_Z m)%Q.
Proof.
  intros Hm Hv.
  assert (Hmq : (0 < inject_Z m)%Q) by (rewrite <- (Zlt_Qlt 0); exact Hm).
  assert (Hvq : (inject_Z v <= inject_Z m)%Q) by (rewrite <- Zle_Qle; exact Hv).
  assert (E : ((r - inject_Z v) / inject_Z m == r / inject_Z m - inject_Z v / inject_Z m)%Q).
  { field. lra. }
  assert (H1 : (inject_Z v / inject_Z m <= 1)%Q).
  { apply Qle_shift_div_r; [exact Hmq | lra]. }
  lra.
Qed.

(** X4. When every period's effective velocity lies between [vmin] and
    [vmax], with [vmin] at least 1, a trial that starts with [r] points
    returns, given fuel for [ceil (r / vmin)] passes, and the periods it
    counts lie between [ceil (r / vmax)] and [ceil (r / vmin)] (zero for a
    backlog that is empty). With a steady velocity [v] the trial takes
    exactly [ceil (r / v)] periods. *)
Theorem trial_periods_within_velocity_range (M : MathLib) (draws : nat -> Q)
    (vd : VelocityData) (params : SimulationParams) (vmin vmax : Z)
    (fuel : nat) (r : Q) (p : Z) (pos : nat) :
  (forall k, vmin <= (effectiveVelocity M draws vd params k).1 <= vmax) ->
  1 <= vmin ->
  (Z.to_nat (Qceiling (r / inject_Z vmin)) <= fuel)%nat ->
  exists p' pos',
    whileRemaining M draws vd params fuel r p pos = Some (p', pos')
    /\ Z.max 0 (Qceiling (r / inject_Z vmax)) <= p' - p
       <= Z.max 0 (Qceiling (r / inject_Z vmin)).
Proof.
  intros Hv Hmin.
  assert (Hmax : 1 <= vmax) by (specialize (Hv 0%nat); lia).
  assert (Hminq : (0 < inject_Z vmin)%Q) by (rewrite <- (Zlt_Qlt 0); lia).
  assert (Hmaxq : (0 < inject_Z vmax)%Q) by (rewrite <- (Zlt_Qlt 0); lia).
  revert r p pos. induction fuel as [|fuel IH]; intros r p pos Hfuel;
    loop_condition r E.
  - exfalso.
    assert (H : (0 < r / inject_Z vmin)%Q) by (apply Qlt_shift_div_l; lra).
    apply Qceiling_pos in H. lia.
  - rewrite whileRemaining_exhausted by exact E. exists p, pos.
    split; [reflexivity|].
    assert (H : (r / inject_Z vmax <= 0)%Q) by (apply Qle_shift_div_r; lra).
    apply Qceiling_nonpos in H. lia.
  - rewrite whileRemaining_step by exact E.
    specialize (Hv pos).
    set (v := (effectiveVelocity M draws vd params pos).1) in *.
    set (q := (effectiveVelocity M draws vd params pos).2).
    assert (H1 : (0 < r / inject_Z vmin)%Q) by (apply Qlt_shift_div_l; lra).
    apply Qceiling_pos in H1.
    assert (H2 : (0 < r / inject_Z vmax)%Q) by (apply Qlt_shift_div_l; lra).
    apply Qceiling_pos in H2.
    pose proof (Qceiling_step_down _ _ (Qdiv_sub_ge r v vmin ltac:(lia) ltac:(lia))) as Hd.
    pose proof (Qceiling_step_up _ _ (Qdiv_sub_le r v vmax ltac:(lia) ltac:(lia))) as Hu.
    destruct (IH (r - inject_Z v)%Q (p + 1) q) as (p' & pos' & Hrun & Hlo & Hhi); [lia|].
    exists p', pos'. split; [exact Hrun | lia].
  - rewrite whileRemaining_exhausted by exact E. exists p, pos.
    split; [reflexivity|].
    assert (H : (r / inject_Z vmax <= 0)%Q) by (apply Qle_shift_div_r; lra).
    apply Qceiling_nonpos in H. lia.
Qed.

Lemma trial_periods_within_velocity_range_witness :
  exists p' pos',
    whileRemaining exampleMath (fun _ => 1 # 2)%Q (fetchHistoricalVelocity oneBoard)
      exampleParams 3 50 0 0%nat = Some (p', pos')
    /\ Z.max 0 (Qceiling (50 / inject_Z 21)) <= p' - 0
       <= Z.max 0 (Qceiling (50 / inject_Z 21)).
Proof.
  apply (trial_periods_within_velocity_range exampleMath (fun _ => 1 # 2)%Q
           (fetchHistoricalVelocity oneBoard) exampleParams 21 21 3%nat 50 0 0%nat).
  - intros k. rewrite effectiveVelocity_eq. vm_compute. split; discriminate.
  - lia.
  - vm_compute. lia.
Defined.

(** ** The reducer at the edges *)

Lemma element_nil (index : option Z) : element [] index = None.
Proof. destruct index as [i|]; [|reflexivity]. cbn. destruct (0 <=? i); reflexivity. Qed.

(** X5. A forecast asked for no trial ([iterations] zero or negative) throws
    a [RangeError] as soon as one confidence level is requested, whatever
    the level and however the index is evaluated: the sorted array is empty,
    the element is [undefined] and the date invalid. With no level requested
    it returns no interval and NaN for mean, median and deviation. *)
Theorem forecast_without_trials_throws {L : Type} (index_of : nat -> L -> option Z)
    (M : MathLib) (draws : nat -> Q) (now : nat -> Z) (fuel : nat)
    (issuesData : option IssuesData) (boardsData : BoardsData) (n : Z)
    (level : L) (levels : list L) (params : SimulationParams) :
  n <= 0 ->
  monteCarlo index_of M draws now fuel issuesData boardsData n (level :: levels) params
    = Some (Thrown RangeError)
  /\ monteCarlo index_of M draws now fuel issuesData boardsData n [] params
     = Some (Returned
         {| iterations := n;
            confidenceIntervals := [];
            simulationSummary :=
              {| Summary.mean := None; Summary.median := None;
                 Summary.standardDeviation := None |} |}).
Proof.
  intros Hn. rewrite !monteCarlo_eq. unfold runMonteCarloSimulation.
  assert (Z.to_nat n = 0%nat) as -> by lia. cbn [forTrials].
  rewrite !monteCarlo_report_eq, deref_singleton.
  change (merge_sort Z.le []) with (@nil Z). split; [|reflexivity].
  cbn [mapLevels]. unfold interval. rewrite element_nil. reflexivity.
Qed.

Lemma forecast_without_trials_throws_witness :
  monteCarlo percentileIndex64 exampleMath (fun _ => 1 # 2)%Q (fun _ => 0) 0
    (backlog 50) oneBoard 0 [50%float; 95%float] exampleParams
  = Some (Thrown RangeError).
Proof.
  apply (forecast_without_trials_throws percentileIndex64 exampleMath
           (fun _ => 1 # 2)%Q (fun _ => 0) 0%nat (backlog 50) oneBoard 0
           50%float [95%float] exampleParams).
  lia.
Defined.

Lemma percentileIndex_in_range_inv (n : nat) (p : Q) (i : Z) :
  percentileIndex n p = Some i -> 0 <= i < Z.of_nat n -> (0 <= p /\ p < 100)%Q.
Proof.
  unfold percentileIndex. intros Hi [H0 Hn].
  assert (Ei : i = Qfloor (inject_Z (Z.of_nat n) * (p / 100))) by congruence.
  set (N := inject_Z (Z.of_nat n)) in *.
  assert (HN : (0 < N)%Q) by (unfold N; rewrite <- (Zlt_Qlt 0); lia).
  pose proof (Qfloor_le (N * (p / 100))) as Hfl.
  pose proof (Qlt_floor (N * (p / 100))) as Hfu.
  rewrite <- Ei in Hfl, Hfu.
  assert (Hi0 : (0 <= inject_Z i)%Q) by (rewrite <- (Zle_Qle 0); exact H0).
  assert (Hi1 : (inject_Z (i + 1) <= N)%Q) by (unfold N; rewrite <- Zle_Qle; lia).
  assert (Hx0 : (0 <= N * (p / 100))%Q) by lra.
  assert (Hx1 : (N * (p / 100) < N * 1)%Q) by lra.
  apply Qmult_lt_l in Hx1; [|exact HN].
  rewrite <- (Qmult_0_r N) in Hx0. apply Qmult_le_l in Hx0; [|exact HN].
  assert (E : (p / 100 == p * (1 # 100))%Q) by reflexivity.
  rewrite E in Hx0, Hx1. lra.
Qed.



(** X7. However the index is evaluated, the reducer returns one interval
    for each level requested, and the periods an interval reports are one
    of the trial results it was given: no value is interpolated. *)
Theorem reported_periods_are_trial_results {L : Type} (index_of : nat -> L -> option Z)
    (now : nat -> Z) (simulationResults : nat) (confidenceLevels : list L)
    (h h' : store) (cis : list (ConfidenceInterval L)) :
  calculateConfidenceIntervals index_of now simulationResults confidenceLevels h
    = (Returned cis, h') ->
  length cis = length confidenceLevels
  /\ forall ci, ci ∈ cis -> periodsRequired ci ∈ deref h simulationResults.
Proof.
  intros Hrun. split.
  - rewrite calculateConfidenceIntervals_eq in Hrun. injection Hrun as Hmap _.
    apply mapLevels_returned in Hmap as [Hl _]. exact Hl.
  - intros ci Hci. apply list_elem_of_lookup in Hci as [j Hj].
    destruct (calculateConfidenceIntervals_returned _ _ _ _ _ _ _ _ _ Hrun Hj)
      as (_ & _ & Hin & _).
    exact Hin.
Qed.

Lemma reported_periods_are_trial_results_witness :
  length [{| confidence := 70%float; periodsRequired := 63;
             daysRemaining := 882; completionDate := 882 |}]
  = length [70%float]
  /\ forall ci,
       ci ∈ [{| confidence := 70%float; periodsRequired := 63;
                daysRemaining := 882; completionDate := 882 |}] ->
       periodsRequired ci ∈ deref {[ 0%nat := seqZ 1 90 ]} 0%nat.
Proof.
  apply (reported_periods_are_trial_results percentileIndex64 (fun _ => 0) 0%nat
           [70%float] {[ 0%nat := seqZ 1 90 ]}
           (<[1%nat := seqZ 1 90]> {[ 0%nat := seqZ 1 90 ]})).
  vm_compute. reflexivity.
Defined.

Lemma merge_sort_Permutation_eq (l1 l2 : list Z) :
  l1 ≡ₚ l2 -> merge_sort Z.le l1 = merge_sort Z.le l2.
Proof.
  intros H. apply (StronglySorted_unique Z.le).
  - apply StronglySorted_merge_sort; apply _.
  - apply StronglySorted_merge_sort; apply _.
  - rewrite !merge_sort_Permutation. exact H.
Qed.

(** X8. The intervals and the median do not depend on the order of the
    trial results: two arrays that hold the same results in different
    orders give the same intervals, or the same exception, and the same
    median. *)
Theorem reducer_ignores_order_of_trials {L : Type} (index_of : nat -> L -> option Z)
    (now : nat -> Z) (a1 a2 : nat) (h1 h2 : store) (confidenceLevels : list L) :
  deref h1 a1 ≡ₚ deref h2 a2 ->
  (calculateConfidenceIntervals index_of now a1 confidenceLevels h1).1
    = (calculateConfidenceIntervals index_of now a2 confidenceLevels h2).1
  /\ (calculateMedian a1 h1).1 = (calculateMedian a2 h2).1.
Proof.
  intros H. rewrite !calculateConfidenceIntervals_eq, !calculateMedian_eq. cbn [fst].
  rewrite (merge_sort_Permutation_eq _ _ H). split; reflexivity.
Qed.

Lemma reducer_ignores_order_of_trials_witness :
  (calculateConfidenceIntervals percentileIndex (fun _ => 0) 0%nat [50%Q; 95%Q]
     {[ 0%nat := [3; 1; 2] ]}).1
  = (calculateConfidenceIntervals percentileIndex (fun _ => 0) 7%nat [50%Q; 95%Q]
       {[ 7%nat := [2; 3; 1] ]}).1
  /\ (calculateMedian 0%nat {[ 0%nat := [3; 1; 2] ]}).1
     = (calculateMedian 7%nat {[ 7%nat := [2; 3; 1] ]}).1.
Proof.
  apply (reducer_ignores_order_of_trials percentileIndex (fun _ => 0) 0%nat 7%nat
           {[ 0%nat := [3; 1; 2] ]} {[ 7%nat := [2; 3; 1] ]} [50%Q; 95%Q]).
  unfold deref. rewrite !lookup_singleton_eq. cbn [default].
  apply (Permutation_cons_app [2] [1] 3). apply perm_swap.
Defined.

(** ** Median and mean *)

(** What [middleOf] returns: the mean of two elements of the sorted array,
    the second at index [length / 2] and the first at or before it, the two
    being the same element when the length is odd. *)
Lemma middleOf_Some (sorted : list Z) (m : Q) :
  middleOf sorted = Some m ->
  exists (a b : Z) (i : nat),
    sorted !! i = Some a
    /\ sorted !! Z.to_nat (Z.of_nat (length sorted) `div` 2) = Some b
    /\ (i <= Z.to_nat (Z.of_nat (length sorted) `div` 2))%nat
    /\ (m == inject_Z (a + b) / 2)%Q
    /\ (Z.of_nat (length sorted) `mod` 2 <> 0 -> m = inject_Z b).
Proof.
  unfold middleOf. set (N := Z.of_nat (length sorted)).
  destruct (Z.eqb_spec (N `mod` 2) 0) as [Heven|Hodd].
  - destruct (element sorted (Some (N `div` 2 - 1))) as [a|] eqn:Ea; [|discriminate].
    destruct (element sorted (Some (N `div` 2))) as [b|] eqn:Eb; [|discriminate].
    intros [= <-].
    apply element_Some in Ea as (i & [= <-] & Hi & Ha).
    apply element_Some in Eb as (j & [= <-] & Hj & Hb).
    exists a, b, (Z.to_nat (N `div` 2 - 1)).
    split; [exact Ha|]. split; [exact Hb|]. split; [lia|]. split; [reflexivity|].
    intros H. contradiction.
  - destruct (element sorted (Some (N `div` 2))) as [b|] eqn:Eb; [|discriminate].
    cbn [fmap option_fmap option_map]. intros [= <-].
    apply element_Some in Eb as (j & [= <-] & Hj & Hb).
    exists b, b, (Z.to_nat (N `div` 2)).
    split; [exact Hb|]. split; [exact Hb|]. split; [lia|]. split; [|reflexivity].
    rewrite inject_Z_plus. field.
Qed.

Lemma middleOf_is_Some (sorted : list Z) : sorted <> [] -> is_Some (middleOf sorted).
Proof.
  intros Hne. unfold middleOf. set (N := Z.of_nat (length sorted)).
  assert (HN : 0 < N) by (unfold N; destruct sorted; [contradiction | cbn; lia]).
  assert (Hmid : 0 <= N `div` 2 < N).
  { split; [apply Z.div_pos; lia | apply Z.div_lt; lia]. }
  destruct (lookup_lt_is_Some_2 sorted (Z.to_nat (N `div` 2))) as [b Hb];
    [unfold N in *; lia|].
  destruct (Z.eqb_spec (N `mod` 2) 0) as [Heven|Hodd]; cbn [element].
  - assert (H1 : 1 <= N `div` 2).
    { pose proof (Z.div_mod N 2 ltac:(lia)). lia. }
    destruct (lookup_lt_is_Some_2 sorted (Z.to_nat (N `div` 2 - 1))) as [a Ha];
      [unfold N in *; lia|].
    destruct (Z.leb_spec 0 (N `div` 2 - 1)); [|lia].
    destruct (Z.leb_spec 0 (N `div` 2)); [|lia].
    rewrite Ha, Hb. eexists. reflexivity.
  - destruct (Z.leb_spec 0 (N `div` 2)); [|lia].
    rewrite Hb. eexists. reflexivity.
Qed.

(** X9. The median is NaN exactly for an empty array. Otherwise it lies
    between the smallest and the largest trial result, and for an odd
    number of results it is one of them. *)
Theorem median_within_trial_results (array : nat) (h : store) :
  ((calculateMedian array h).1 = None <-> deref h array = [])
  /\ forall (m : Q) (lo hi : Z),
       (calculateMedian array h).1 = Some m ->
       (forall x, x ∈ deref h array -> lo <= x <= hi) ->
       (inject_Z lo <= m <= inject_Z hi)%Q
       /\ (Z.of_nat (length (deref h array)) `mod` 2 <> 0 ->
           exists x, x ∈ deref h array /\ m = inject_Z x).
Proof.
  rewrite calculateMedian_eq. cbn [fst].
  set (sorted := merge_sort Z.le (deref h array)).
  assert (Hin : forall i x, sorted !! i = Some x -> x ∈ deref h array).
  { intros i x Hx. apply list_elem_of_lookup_2 in Hx. unfold sorted in Hx.
    rewrite merge_sort_Permutation in Hx. exact Hx. }
  split.
  - split.
    + intros Hnone. destruct (deref h array) as [|x l] eqn:E; [reflexivity|].
      destruct (middleOf_is_Some sorted) as [m Hm]; [|congruence].
      intros Hs. apply (f_equal length) in Hs. unfold sorted in Hs.
      rewrite length_merge_sort in Hs. discriminate Hs.
    + intros E. unfold sorted. rewrite E. reflexivity.
  - intros m lo hi Hm Hb.
    apply middleOf_Some in Hm as (a & b & i & Ha & Hb' & _ & Hm & Hodd).
    pose proof (Hb a (Hin _ _ Ha)) as Hba. pose proof (Hb b (Hin _ _ Hb')) as Hbb.
    split.
    + rewrite Hm, inject_Z_plus.
      assert (H1 : (inject_Z lo <= inject_Z a)%Q) by (rewrite <- Zle_Qle; lia).
      assert (H2 : (inject_Z lo <= inject_Z b)%Q) by (rewrite <- Zle_Qle; lia).
      assert (H3 : (inject_Z a <= inject_Z hi)%Q) by (rewrite <- Zle_Qle; lia).
      assert (H4 : (inject_Z b <= inject_Z hi)%Q) by (rewrite <- Zle_Qle; lia).
      split; [apply Qle_shift_div_l | apply Qle_shift_div_r]; lra.
    + intros H. unfold sorted in Hodd. rewrite length_merge_sort in Hodd.
      exists b. split; [exact (Hin _ _ Hb') | exact (Hodd H)].
Qed.

(** The index of level 50 is the middle index. *)
Lemma percentileIndex_50 (n : nat) (c : Q) :
  (c == 50)%Q -> percentileIndex n c = Some (Z.of_nat n `div` 2).
Proof.
  intros Hc. unfold percentileIndex. f_equal.
  rewrite Zdiv_Qdiv. apply Qfloor_comp. rewrite Hc. field.
Qed.

(** X10. In exact arithmetic the interval for level 50 reports the element
    at the middle index of the sorted results: never less than the median,
    and the median itself when the number of results is odd. *)
Theorem level_50_is_at_least_the_median (now : nat -> Z) (simulationResults : nat)
    (confidenceLevels : list Q) (h h' : store) (cis : list (ConfidenceInterval Q))
    (ci : ConfidenceInterval Q) (m : Q) :
  calculateConfidenceIntervals percentileIndex now simulationResults confidenceLevels h
    = (Returned cis, h') ->
  ci ∈ cis -> (confidence ci == 50)%Q ->
  (calculateMedian simulationResults h).1 = Some m ->
  (m <= inject_Z (periodsRequired ci))%Q
  /\ (Z.of_nat (length (deref h simulationResults)) `mod` 2 <> 0 ->
      m = inject_Z (periodsRequired ci)).
Proof.
  intros Hrun Hci Hc Hm. apply list_elem_of_lookup in Hci as [j Hj].
  destruct (calculateConfidenceIntervals_returned _ _ _ _ _ _ _ _ _ Hrun Hj)
    as (_ & Hel & _).
  rewrite (percentileIndex_50 _ _ Hc) in Hel.
  apply element_Some in Hel as (i & [= <-] & _ & Hp).
  rewrite calculateMedian_eq in Hm. cbn [fst] in Hm.
  apply middleOf_Some in Hm as (a & b & k & Ha & Hb & Hk & Hm & Hodd).
  rewrite length_merge_sort in Hb, Hk, Hodd.
  assert (b = periodsRequired ci) as -> by congruence.
  assert (Hab : a <= periodsRequired ci).
  { eapply (StronglySorted_lookup_le (merge_sort Z.le (deref h simulationResults)));
      [apply StronglySorted_merge_sort; apply _ | exact Hk | exact Ha | exact Hb]. }
  split; [|exact Hodd].
  rewrite Hm, inject_Z_plus.
  assert (H1 : (inject_Z a <= inject_Z (periodsRequired ci))%Q)
    by (rewrite <- Zle_Qle; exact Hab).
  apply Qle_shift_div_r; lra.
Qed.

Lemma level_50_is_at_least_the_median_witness :
  ((5 # 2) <= inject_Z 3)%Q
  /\ (Z.of_nat (length (deref {[ 0%nat := [4; 1; 3; 2] ]} 0%nat)) `mod` 2 <> 0 ->
      (5 # 2)%Q = inject_Z 3).
Proof.
  apply (level_50_is_at_least_the_median (fun _ => 0) 0%nat [50%Q]
           {[ 0%nat := [4; 1; 3; 2] ]} (<[1%nat := [1; 2; 3; 4]]> {[ 0%nat := [4; 1; 3; 2] ]})
           [{| confidence := 50%Q; periodsRequired := 3;
               daysRemaining := 42; completionDate := 42 |}]
           {| confidence := 50%Q; periodsRequired := 3;
              daysRemaining := 42; completionDate := 42 |}).
  - vm_compute. reflexivity.
  - apply list_elem_of_here.
  - reflexivity.
  - vm_compute. reflexivity.
Defined.

Lemma sum_from (l : list Z) (a : Q) :
  (fold_left (fun sum value => sum + inject_Z value) l a
   == a + fold_left (fun sum value => sum + inject_Z value) l 0)%Q.
Proof.
  revert a. induction l as [|x l IH]; intros a; cbn [fold_left].
  - ring.
  - rewrite (IH (a + _)%Q), (IH (0 + _)%Q). ring.
Qed.

Lemma sum_bounds (l : list Z) (lo hi : Z) :
  (forall x, x ∈ l -> lo <= x <= hi) ->
  (inject_Z (Z.of_nat (length l)) * inject_Z lo
   <= fold_left (fun sum value => sum + inject_Z value) l 0
   <= inject_Z (Z.of_nat (length l)) * inject_Z hi)%Q.
Proof.
  induction l as [|x l IH]; intros Hb.
  - cbn [fold_left length]. change (inject_Z (Z.of_nat 0)) with 0%Q. lra.
  - cbn [fold_left length]. rewrite sum_from.
    rewrite Nat2Z.inj_succ. unfold Z.succ. rewrite inject_Z_plus.
    destruct IH as [IH1 IH2].
    { intros y Hy. apply Hb. apply elem_of_cons. right. exact Hy. }
    destruct (Hb x) as [Hx1 Hx2]; [apply list_elem_of_here|].
    rewrite Zle_Qle in Hx1, Hx2.
    change (inject_Z 1) with 1%Q. lra.
Qed.

Lemma calculateMean_bounds (array : list Z) (m : Q) (lo hi : Z) :
  calculateMean array = Some m ->
  (forall x, x ∈ array -> lo <= x <= hi) ->
  (inject_Z lo <= m <= inject_Z hi)%Q.
Proof.
  intros Hm Hb.
  assert (HN : (0 < inject_Z (Z.of_nat (length array)))%Q).
  { rewrite <- (Zlt_Qlt 0). destruct array; [discriminate Hm | cbn; lia]. }
  assert (Em : m = (fold_left (fun sum value => sum + inject_Z value) array 0
                    / inject_Z (Z.of_nat (length array)))%Q).
  { destruct array; [discriminate Hm|]. unfold calculateMean in Hm. congruence. }
  destruct (sum_bounds array lo hi Hb) as [H1 H2]. rewrite Em.
  split; [apply Qle_shift_div_l | apply Qle_shift_div_r]; try exact HN; lra.
Qed.

(** X11. The mean is NaN exactly for an empty array. Otherwise it lies
    between the smallest and the largest trial result; in particular it is
    their common value when all results are equal. *)
Theorem mean_within_trial_results (array : list Z) :
  (calculateMean array = None <-> array = [])
  /\ forall (m : Q) (lo hi : Z),
       calculateMean array = Some m ->
       (forall x, x ∈ array -> lo <= x <= hi) ->
       (inject_Z lo <= m <= inject_Z hi)%Q.
Proof.
  split.
  - destruct array; cbn; split; congruence.
  - intros m lo hi. apply calculateMean_bounds.
Qed.

(** ** Standard deviation *)

Lemma Qsquare_nonneg (d : Q) : (0 <= d * d)%Q.
Proof.
  destruct (Qlt_le_dec d 0) as [H|H].
  - assert (E : (d * d == (- d) * (- d))%Q) by ring.
    rewrite E. apply Qmult_le_0_compat; lra.
  - apply Qmult_le_0_compat; exact H.
Qed.

Section Variance.
Variable mean : Q.

Lemma squares_from (l : list Z) (a : Q) :
  (fold_left (fun sum value =>
                sum + (inject_Z value - mean) * (inject_Z value - mean)) l a
   == a + fold_left (fun sum value =>
                sum + (inject_Z value - mean) * (inject_Z value - mean)) l 0)%Q.
Proof.
  revert a. induction l as [|x l IH]; intros a; cbn [fold_left].
  - ring.
  - rewrite (IH (a + _)%Q), (IH (0 + _)%Q). ring.
Qed.

Lemma squares_nonneg (l : list Z) :
  (0 <= fold_left (fun sum value =>
                sum + (inject_Z value - mean) * (inject_Z value - mean)) l 0)%Q.
Proof.
  induction l as [|x l IH]; cbn [fold_left]; [apply Qle_refl|].
  rewrite squares_from.
  pose proof (Qsquare_nonneg (inject_Z x - mean)) as H. lra.
Qed.

Lemma squares_zero_iff (l : list Z) :
  (fold_left (fun sum value =>
                sum + (inject_Z value - mean) * (inject_Z value - mean)) l 0 == 0)%Q
  <-> forall x, x ∈ l -> (inject_Z x == mean)%Q.
Proof.
  induction l as [|x l IH]; cbn [fold_left].
  - split; [intros _ y Hy; apply elem_of_nil in Hy; contradiction | reflexivity].
  - rewrite squares_from.
    pose proof (squares_nonneg l) as Hl.
    pose proof (Qsquare_nonneg (inject_Z x - mean)) as Hx. split.
    + intros H y Hy. apply elem_of_cons in Hy as [-> | Hy].
      * assert (H0 : ((inject_Z x - mean) * (inject_Z x - mean) == 0)%Q) by lra.
        apply Qmult_integral in H0. destruct H0; lra.
      * apply IH; [lra | exact Hy].
    + intros H.
      assert (Hx0 : (inject_Z x == mean)%Q) by (apply H, list_elem_of_here).
      assert (Hl0 : (fold_left (fun sum value =>
                sum + (inject_Z value - mean) * (inject_Z value - mean)) l 0 == 0)%Q).
      { apply IH. intros y Hy. apply H. apply elem_of_cons. right. exact Hy. }
      rewrite Hl0, Hx0. ring.
Qed.
End Variance.

(** X12. The deviation is NaN exactly for an empty array. Otherwise it is
    the square root of a variance that is not negative, so [Math.sqrt] is
    never handed a negative number, and the variance is zero exactly when
    all trial results are equal. *)
Theorem deviation_is_root_of_nonnegative_variance (M : MathLib) (array : list Z) :
  (calculateStandardDeviation M array = None <-> array = [])
  /\ (array <> [] ->
      exists variance : Q,
        calculateStandardDeviation M array = Some (Math_sqrt M variance)
        /\ (0 <= variance)%Q
        /\ ((variance == 0)%Q <-> forall x y, x ∈ array -> y ∈ array -> x = y)).
Proof.
  unfold calculateStandardDeviation. cbv zeta.
  destruct (calculateMean array) as [mean|] eqn:Hmean.
  - assert (Hne : array <> []).
    { intros ->. discriminate Hmean. }
    split; [split; [discriminate | contradiction]|].
    intros _. eexists. split; [reflexivity|].
    assert (HN : (0 < inject_Z (Z.of_nat (length array)))%Q).
    { rewrite <- (Zlt_Qlt 0). destruct array; [contradiction | cbn; lia]. }
    pose proof (squares_nonneg mean array) as Hs.
    split.
    + apply Qle_shift_div_l; [exact HN | lra].
    + assert (Hz : forall s : Q,
                (s / inject_Z (Z.of_nat (length array)) == 0 <-> s == 0)%Q).
      { intros s. split; intros H.
        - assert (E : (s == s / inject_Z (Z.of_nat (length array))
                            * inject_Z (Z.of_nat (length array)))%Q) by (field; lra).
          rewrite H in E. rewrite E. ring.
        - rewrite H. field. lra. }
      rewrite Hz, squares_zero_iff. split.
      * intros H x y Hx Hy. apply inject_Z_injective.
        rewrite (H x Hx), (H y Hy). reflexivity.
      * intros H x Hx.
        destruct (calculateMean_bounds array mean x x Hmean) as [H1 H2].
        { intros y Hy. rewrite (H y x Hy Hx). lia. }
        lra.
  - split; [|intros Hne; destruct array; [contradiction | discriminate Hmean]].
    split; [intros _|reflexivity].
    destruct array; [reflexivity | discriminate Hmean].
Qed.

(** ** The forecast as a whole *)



Section UnusedFields.
Variable M : MathLib.
Variable draws : nat -> Q.
Variable vd : VelocityData.
Variables p1 p2 : SimulationParams.
Hypothesis same_blockers : includeBlockers p1 = includeBlockers p2.

Lemma effectiveVelocity_reads_includeBlockers (pos : nat) :
  effectiveVelocity M draws vd p1 pos = effectiveVelocity M draws vd p2 pos.
Proof. rewrite !effectiveVelocity_eq, same_blockers. reflexivity. Qed.

Lemma whileRemaining_reads_includeBlockers (fuel : nat) (r : Q) (p : Z) (pos : nat) :
  whileRemaining M draws vd p1 fuel r p pos = whileRemaining M draws vd p2 fuel r p pos.
Proof.
  revert r p pos. induction fuel as [|fuel IH]; intros r p pos;
    loop_condition r E.
  - rewrite !whileRemaining_out_of_fuel by exact E. reflexivity.
  - rewrite !whileRemaining_exhausted by exact E. reflexivity.
  - rewrite !whileRemaining_step by exact E.
    rewrite effectiveVelocity_reads_includeBlockers. apply IH.
  - rewrite !whileRemaining_exhausted by exact E. reflexivity.
Qed.

Lemma forTrials_reads_includeBlockers (fuel : nat) (total : Q) (n : nat)
    (acc : list Z) (pos : nat) :
  forTrials M draws vd p1 fuel total n acc pos = forTrials M draws vd p2 fuel total n acc pos.
Proof.
  revert acc pos. induction n as [|n IH]; intros acc pos; cbn; [reflexivity|].
  rewrite whileRemaining_reads_includeBlockers.
  destruct (whileRemaining M draws vd p2 fuel total 0 pos) as [[p q]|]; [apply IH | reflexivity].
Qed.
End UnusedFields.

(** X14. Of the simulation parameters only [includeBlockers] is read: two
    forecasts whose parameters differ in [useHistoricalVelocity] or
    [periodCount] alone are the same, on the same responses, draws and
    clock. *)
Theorem forecast_reads_only_includeBlockers {L : Type} (index_of : nat -> L -> option Z)
    (M : MathLib) (draws : nat -> Q) (now : nat -> Z) (fuel : nat)
    (issuesData : option IssuesData) (boardsData : BoardsData) (n : Z)
    (levels : list L) (p1 p2 : SimulationParams) :
  includeBlockers p1 = includeBlockers p2 ->
  monteCarlo index_of M draws now fuel issuesData boardsData n levels p1
  = monteCarlo index_of M draws now fuel issuesData boardsData n levels p2.
Proof.
  intros H. rewrite !monteCarlo_eq. unfold runMonteCarloSimulation.
  rewrite (forTrials_reads_includeBlockers M draws _ p1 p2 H). reflexivity.
Qed.

Lemma forecast_reads_only_includeBlockers_witness :
  monteCarlo percentileIndex exampleMath (fun _ => 1 # 10)%Q (fun _ => 0) 10
    (backlog 30) oneBoard 2 [50%Q] exampleParams
  = monteCarlo percentileIndex exampleMath (fun _ => 1 # 10)%Q (fun _ => 0) 10
      (backlog 30) oneBoard 2 [50%Q]
      {| useHistoricalVelocity := false; periodCount := 1; includeBlockers := true |}.
Proof.
  apply (forecast_reads_only_includeBlockers percentileIndex exampleMath
           (fun _ => 1 # 10)%Q (fun _ => 0) 10%nat (backlog 30) oneBoard 2 [50%Q]
           exampleParams
           {| useHistoricalVelocity := false; periodCount := 1; includeBlockers := true |}).
  reflexivity.
Defined.

(** ** A history without variation *)

Lemma sampleVelocity_steady (M : MathLib) (draws : nat -> Q) (vd : VelocityData)
    (pos : nat) :
  (stdDev vd == 0)%Q ->
  (sampleVelocity M draws vd pos).1 = Z.max 0 (Math_round (mean vd)).
Proof.
  intros H. unfold sampleVelocity, bind, Math_random, ret. cbn [fst].
  unfold Math_max, Math_round. f_equal. apply Qfloor_comp. rewrite H. ring.
Qed.

Lemma whileRemaining_steady (M : MathLib) (draws : nat -> Q) (vd : VelocityData)
    (params : SimulationParams) (v : Z) (fuel : nat) (r : Q) (p : Z) (pos : nat) :
  (forall k, (effectiveVelocity M draws vd params k).1 = v) -> 1 <= v ->
  (Z.to_nat (Qceiling (r / inject_Z v)) <= fuel)%nat ->
  exists pos',
    whileRemaining M draws vd params fuel r p pos
    = Some (p + Z.max 0 (Qceiling (r / inject_Z v)), pos').
Proof.
  intros Hv H1.
  assert (Hvq : (0 < inject_Z v)%Q) by (rewrite <- (Zlt_Qlt 0); lia).
  revert r p pos. induction fuel as [|fuel IH]; intros r p pos Hfuel;
    loop_condition r E.
  - exfalso.
    assert (H : (0 < r / inject_Z v)%Q) by (apply Qlt_shift_div_l; lra).
    apply Qceiling_pos in H. lia.
  - rewrite whileRemaining_exhausted by exact E. exists pos. do 2 f_equal.
    assert (H : (r / inject_Z v <= 0)%Q) by (apply Qle_shift_div_r; lra).
    apply Qceiling_nonpos in H. lia.
  - rewrite whileRemaining_step by exact E. rewrite Hv.
    assert (H : (0 < r / inject_Z v)%Q) by (apply Qlt_shift_div_l; lra).
    apply Qceiling_pos in H.
    pose proof (Qceiling_step_down _ _ (Qdiv_sub_ge r v v ltac:(lia) ltac:(lia))) as Hd.
    pose proof (Qceiling_step_up _ _ (Qdiv_sub_le r v v ltac:(lia) ltac:(lia))) as Hu.
    destruct (IH (r - inject_Z v)%Q (p + 1) (effectiveVelocity M draws vd params pos).2)
      as [pos' Hrun]; [lia|].
    exists pos'. rewrite Hrun. do 2 f_equal. lia.
  - rewrite whileRemaining_exhausted by exact E. exists pos. do 2 f_equal.
    assert (H : (r / inject_Z v <= 0)%Q) by (apply Qle_shift_div_r; lra).
    apply Qceiling_nonpos in H. lia.
Qed.



(** ** The ends of the scale *)


